(** * warcat.model: a shallow embedding of the WARC document model

    The development follows [warcat/model.py]: field lists ([Fields],
    [HTTPHeaders]), byte-range references ([BinaryFileRef]), headers,
    content blocks, records and the sequential reader [WARC.read_record].

    Python values are represented as follows.
    - [str] is a list of Unicode code points, [bytes] a list of octets;
      [bytes.decode()] / [str.encode()] are strict UTF-8.
    - exceptions are an inductive type and fallible code lives in [result];
    - a file object is its contents and a cursor; code that moves the cursor
      or logs a warning is written in a state-and-exception monad. *)

From Stdlib Require Import Strings.String Strings.Ascii Strings.Byte.
From Stdlib Require Import Numbers.DecimalString.
From Stdlib Require Import ZArith NArith Arith List Bool Lia.
Import ListNotations.

(** ** Text and octets *)

Definition char := N.
Definition str := list char.
Definition bytes := list Byte.byte.

(** A [str] literal, written as a Rocq string of one-octet characters. *)
Definition u (s : string) : str :=
  map (fun c => N_of_ascii c) (list_ascii_of_string s).

(** A [bytes] literal. *)
Definition b (s : string) : bytes := list_byte_of_string s.

Definition str_eqb (x y : str) : bool :=
  if list_eq_dec N.eq_dec x y then true else false.

Definition bytes_eqb (x y : bytes) : bool :=
  if list_eq_dec Byte.byte_eq_dec x y then true else false.

Definition NEWLINE : str := u (String "013" (String "010" EmptyString)).
Definition NEWLINE_BYTES : bytes := [Byte.x0d; Byte.x0a].
Definition FIELD_DELIM_BYTES : bytes := NEWLINE_BYTES ++ NEWLINE_BYTES.

(** ** Exceptions *)

Inductive exn : Type :=
| IOError_WrongWARCHeader              (* IOError('Wrong WARC header') *)
| IOError_BlocksNotSeparated (tell : Z) (* IOError('Blocks not separated correctly (tell=..)') *)
| KeyError (name : str)
| ValueError
| TypeError
| OSError
| UnicodeDecodeError
| UnicodeEncodeError.

Inductive result (A : Type) : Type :=
| Ok (a : A)
| Raise (e : exn).

Arguments Ok {A} a.
Arguments Raise {A} e.

Definition rbind {A B} (r : result A) (k : A -> result B) : result B :=
  match r with
  | Ok a => k a
  | Raise e => Raise e
  end.

Declare Scope result_scope.
Delimit Scope result_scope with result.
Notation "x <- r ;; k" := (rbind r (fun x => k))
  (at level 61, r at next level, right associativity) : result_scope.
Notation "' p <- r ;; k" := (rbind r (fun x => let 'p := x in k))
  (at level 61, p pattern, r at next level, right associativity)
  : result_scope.

(** ** Python string primitives *)

(** [s.startswith(p)] (also used on [bytes]). *)
Fixpoint startswith {A} (eqb : A -> A -> bool) (s p : list A) {struct p}
  : bool :=
  match p, s with
  | [], _ => true
  | _ :: _, [] => false
  | x :: p', y :: s' => eqb y x && startswith eqb s' p'
  end.

Definition str_startswith : str -> str -> bool := startswith N.eqb.
Definition bytes_startswith : bytes -> bytes -> bool := startswith Byte.eqb.

(** First occurrence of a non-empty [sep] in [s]: the text before it and
    the text after it. *)
Fixpoint partition {A} (eqb : A -> A -> bool) (sep s : list A)
  : option (list A * list A) :=
  if startswith eqb s sep then Some ([], skipn (length sep) s)
  else match s with
       | [] => None
       | c :: s' =>
         match partition eqb sep s' with
         | Some (before, after) => Some (c :: before, after)
         | None => None
         end
       end.

(** [s.split(sep, 1)]: a list of one or two pieces. *)
Definition split1 (sep s : str) : list str :=
  match partition N.eqb sep s with
  | Some (before, after) => [before; after]
  | None => [s]
  end.

(** [re.split(sep, s)] for a pattern that is the literal [sep]: all the
    pieces between successive leftmost occurrences.  Every occurrence
    consumes at least one character, so [length s] rounds are enough. *)
Fixpoint re_split_from (fuel : nat) (sep s : str) : list str :=
  match fuel with
  | O => [s]
  | S fuel' =>
    match partition N.eqb sep s with
    | Some (before, after) => before :: re_split_from fuel' sep after
    | None => [s]
    end
  end.

Definition re_split (sep s : str) : list str :=
  re_split_from (length s) sep s.

(** Tuple unpacking [x, y = pieces]. *)
Definition unpack2 {A} (pieces : list A) : result (A * A) :=
  match pieces with
  | [x; y] => Ok (x, y)
  | _ => Raise ValueError
  end.

(** [str.isspace] on one code point: the Unicode white-space set. *)
Definition isspace (c : char) : bool :=
  ((9 <=? c) && (c <=? 13) || (28 <=? c) && (c <=? 32)
   || (c =? 133) || (c =? 160) || (c =? 5760)
   || (8192 <=? c) && (c <=? 8202)
   || (c =? 8232) || (c =? 8233) || (c =? 8239) || (c =? 8287)
   || (c =? 12288))%N.

(** [s.lstrip()]. *)
Fixpoint lstrip (s : str) : str :=
  match s with
  | c :: s' => if isspace c then lstrip s' else s
  | [] => []
  end.

(** [s.rstrip()] and [s.strip()], used by [int]. *)
Definition rstrip (s : str) : str := rev (lstrip (rev s)).
Definition strip (s : str) : str := rstrip (lstrip s).

(** [str.lower] on the ASCII range: A-Z are mapped to a-z.  Code points
    outside that range are left as they are, where Python consults its
    Unicode tables; the function is exact on ASCII text. *)
Definition lower_char (c : char) : char :=
  if ((65 <=? c) && (c <=? 90))%N then (c + 32)%N else c.

Definition lower (s : str) : str := map lower_char s.

(** ** UTF-8 *)

Definition byte_val (x : Byte.byte) : N := Byte.to_N x.

Definition byte_of (n : N) : Byte.byte :=
  match Byte.of_N n with
  | Some x => x
  | None => Byte.x00
  end.

Definition is_cont (x : Byte.byte) : bool :=
  ((128 <=? byte_val x) && (byte_val x <? 192))%N.

Definition cont_bits (x : Byte.byte) : N := (byte_val x - 128)%N.

Definition is_surrogate (c : char) : bool :=
  ((55296 <=? c) && (c <=? 57343))%N.

Definition cons_ok {A} (x : A) (r : result (list A)) : result (list A) :=
  match r with
  | Ok l => Ok (x :: l)
  | Raise e => Raise e
  end.

(** [b.decode()]: strict UTF-8 (no overlong forms, no surrogates, nothing
    above U+10FFFF). *)
Fixpoint decode (bs : bytes) : result str :=
  match bs with
  | [] => Ok []
  | b0 :: t0 =>
    let v0 := byte_val b0 in
    if (v0 <? 128)%N then cons_ok v0 (decode t0)
    else if (v0 <? 224)%N then
      match t0 with
      | b1 :: t1 =>
        let c := ((v0 - 192) * 64 + cont_bits b1)%N in
        if (192 <=? v0)%N && is_cont b1 && (128 <=? c)%N
        then cons_ok c (decode t1) else Raise UnicodeDecodeError
      | _ => Raise UnicodeDecodeError
      end
    else if (v0 <? 240)%N then
      match t0 with
      | b1 :: b2 :: t2 =>
        let c := ((v0 - 224) * 4096 + cont_bits b1 * 64 + cont_bits b2)%N in
        if is_cont b1 && is_cont b2 && (2048 <=? c)%N && negb (is_surrogate c)
        then cons_ok c (decode t2) else Raise UnicodeDecodeError
      | _ => Raise UnicodeDecodeError
      end
    else
      match t0 with
      | b1 :: b2 :: b3 :: t3 =>
        let c := ((v0 - 240) * 262144 + cont_bits b1 * 4096
                  + cont_bits b2 * 64 + cont_bits b3)%N in
        if is_cont b1 && is_cont b2 && is_cont b3
           && (65536 <=? c)%N && (c <=? 1114111)%N
        then cons_ok c (decode t3) else Raise UnicodeDecodeError
      | _ => Raise UnicodeDecodeError
      end
  end.

Definition encode_char (c : char) : result bytes :=
  if (c <? 128)%N then Ok [byte_of c]
  else if (c <? 2048)%N then
    Ok [byte_of (192 + c / 64); byte_of (128 + c mod 64)]%N
  else if (c <? 65536)%N then
    if is_surrogate c then Raise UnicodeEncodeError
    else Ok [byte_of (224 + c / 4096); byte_of (128 + (c / 64) mod 64);
             byte_of (128 + c mod 64)]%N
  else if (c <=? 1114111)%N then
    Ok [byte_of (240 + c / 262144); byte_of (128 + (c / 4096) mod 64);
        byte_of (128 + (c / 64) mod 64); byte_of (128 + c mod 64)]%N
  else Raise UnicodeEncodeError.

(** [s.encode()]. *)
Fixpoint encode (s : str) : result bytes :=
  match s with
  | [] => Ok []
  | c :: s' =>
    match encode_char c, encode s' with
    | Ok x, Ok y => Ok (x ++ y)
    | Raise e, _ => Raise e
    | _, Raise e => Raise e
    end
  end.

(** ** Integers as text *)

(** [str(i)] for an [int]. *)
Definition str_of_int (z : Z) : str := u (NilZero.string_of_int (Z.to_int z)).

Definition digit_val (c : char) : option Z :=
  if ((48 <=? c) && (c <=? 57))%N then Some (Z.of_N c - 48)%Z else None.

Fixpoint digits_val (acc : Z) (s : str) : option Z :=
  match s with
  | [] => Some acc
  | c :: s' =>
    match digit_val c with
    | Some d => digits_val (10 * acc + d)%Z s'
    | None => None
    end
  end.

Definition unsigned_of_str (s : str) : result Z :=
  match s with
  | [] => Raise ValueError
  | _ => match digits_val 0 s with
         | Some z => Ok z
         | None => Raise ValueError
         end
  end.

(** [int(s)] for a [str]: surrounding white space is dropped, then an
    optional sign and a non-empty run of the digits 0-9 is read.  (The
    digits of other scripts, and the underscores that later versions of
    the language allow between digits, are not read.) *)
Definition int_of_str (s : str) : result Z :=
  match strip s with
  | 45%N :: s' => (z <- unsigned_of_str s' ;; Ok (- z)%Z)%result
  | 43%N :: s' => unsigned_of_str s'
  | s' => unsigned_of_str s'
  end.

(** ** Objects stored in a field list *)

(** A field value is whatever Python object was stored: the parser stores
    [str], the [content_length] setter stores an [int], and a lookup of an
    absent name evaluates to [None]. *)
Inductive pyval : Type :=
| PNone
| PStr (s : str)
| PInt (i : Z).

(** [str(v)], as performed by ['{}'.format(v)]. *)
Definition format_val (v : pyval) : str :=
  match v with
  | PNone => u "None"
  | PStr s => s
  | PInt i => str_of_int i
  end.

(** [int(v)]. *)
Definition int_of (v : pyval) : result Z :=
  match v with
  | PNone => Raise TypeError
  | PStr s => int_of_str s
  | PInt i => Ok i
  end.

Definition pyval_eqb (x y : pyval) : bool :=
  match x, y with
  | PNone, PNone => true
  | PStr s, PStr s' => str_eqb s s'
  | PInt i, PInt i' => Z.eqb i i'
  | _, _ => false
  end.

(** [b''.join(s.encode() for s in chunks)]. *)
Fixpoint encode_join (chunks : list str) : result bytes :=
  match chunks with
  | [] => Ok []
  | s :: chunks' =>
    (x <- encode s ;; y <- encode_join chunks' ;; Ok (x ++ y))%result
  end.

(** [for s in chunks: yield s.encode()]: the chunks yielded, and the
    exception, if any, that ended the generator. *)
Fixpoint encode_each (chunks : list str) : list bytes * option exn :=
  match chunks with
  | [] => ([], None)
  | s :: chunks' =>
    match encode s with
    | Raise e => ([], Some e)
    | Ok x => let (ys, e) := encode_each chunks' in (x :: ys, e)
    end
  end.

(** [b''.join(generator)]: the octets, or the exception that ended the
    generator. *)
Definition join_chunks (g : list bytes * option exn) : result bytes :=
  match g with
  | (chunks, None) => Ok (concat chunks)
  | (_, Some e) => Raise e
  end.

(** [l.insert(i, x)] for a non-negative index. *)
Definition list_insert {A} (i : nat) (x : A) (l : list A) : list A :=
  firstn i l ++ x :: skipn i l.

(** ** class Fields *)

Module Fields.

(** The underlying [self._list]. *)
Definition t := list (str * pyval).

(** [k.lower() == name.lower()] *)
Definition same_name (k name : str) : bool :=
  str_eqb (lower k) (lower name).

(** [__getitem__]: the loop falls through, and the method returns
    [None], when no name matches. *)
Fixpoint getitem (self : t) (name : str) : result pyval :=
  match self with
  | [] => Ok PNone
  | (k, v) :: rest =>
    if same_name k name then Ok v else getitem rest name
  end.

(** [__contains__] *)
Definition contains (self : t) (name : str) : result bool :=
  (v <- getitem self name ;; Ok (negb (pyval_eqb v PNone)))%result.

(** [__len__] *)
Definition len (self : t) : nat := length self.

Fixpoint index_from (i : nat) (self : t) (name : str) : result nat :=
  match self with
  | [] => Raise (KeyError name)
  | (k, _) :: rest =>
    if same_name k name then Ok i else index_from (S i) rest name
  end.

(** [index]: position of the first occurrence, or [KeyError]. *)
Definition index (self : t) (name : str) : result nat :=
  index_from 0 self name.

(** [__delitem__] *)
Definition delitem (self : t) (name : str) : t :=
  filter (fun x => negb (same_name (fst x) name)) self.

(** [add] *)
Definition add (self : t) (name : str) (value : pyval) : t :=
  self ++ [(name, value)].

(** [__setitem__] *)
Definition setitem (self : t) (name : str) (value : pyval) : result t :=
  match index self name with
  | Raise (KeyError _) => Ok (self ++ [(name, value)])
  | Raise e => Raise e
  | Ok index => Ok (list_insert index (name, value) (delitem self name))
  end.

(** [get] *)
Definition get (self : t) (name : str) (default : pyval) : result pyval :=
  match getitem self name with
  | Raise (KeyError _) => Ok default
  | r => r
  end.

(** [get_list] *)
Definition get_list (self : t) (name : str) : list (str * pyval) :=
  filter (fun x => same_name (fst x) name) self.

(** [count] *)
Definition count (self : t) (name : str) : nat :=
  length (get_list self name).

Definition keys (self : t) : list str := map fst self.
Definition values (self : t) : list pyval := map snd self.
Definition clear (self : t) : t := [].

(** [iter_str]: the chunks yielded, in order. *)
Definition iter_str (self : t) : list str :=
  flat_map (fun '(name, value) =>
              [name ++ u ": " ++ format_val value; NEWLINE]) self.

(** [__str__] *)
Definition to_str (self : t) : str := concat (iter_str self).

(** [__bytes__], through [iter_bytes]. *)
Definition to_bytes (self : t) : result bytes := encode_join (iter_str self).

(** [join_multilines]: the folded value and the lines left in the
    deque. *)
Fixpoint join_multilines (value : str) (lines : list str)
  : str * list str :=
  match lines with
  | [] => (value, [])
  | line :: lines' =>
    match line with
    | [] => (value, lines')
    | c :: tail =>
      if negb ((c =? 32)%N || (c =? 9)%N) then (value, line :: lines')
      else join_multilines (value ++ tail) lines'
    end
  end.

(** The [while len(lines)] loop of [parse].  Every round pops at least
    one line, so [length lines] rounds empty the deque. *)
Fixpoint parse_loop (fuel : nat) (fields : t) (lines : list str)
  : result t :=
  match fuel, lines with
  | S fuel', line :: lines' =>
    if str_eqb line [] then parse_loop fuel' fields lines'
    else
      ('(name, value) <- unpack2 (split1 (u ":") line) ;;
       let value := lstrip value in
       let '(value, lines'') := join_multilines value lines' in
       parse_loop fuel' (add fields name (PStr value)) lines'')%result
  | _, _ => Ok fields
  end.

(** [parse]; [newline] is taken as a literal separator, which is what
    [re.split] makes of a pattern without special characters such as
    [NEWLINE], the terminator the callers pass.  A [newline] that is a
    regular expression of another kind is not covered. *)
Definition parse (s : str) (newline : str) : result t :=
  let lines := re_split newline s in
  parse_loop (length lines) [] lines.

End Fields.

(** ** class HTTPHeaders *)

Module HTTPHeaders.

Record t := mk { status : str; _list : Fields.t }.

(** [parse] *)
Definition parse (s : str) (newline : str) : result t :=
  ('(status, s) <- unpack2 (split1 newline s) ;;
   fields <- Fields.parse s newline ;;
   Ok (mk status ([] ++ fields)))%result.

(** [iter_str] *)
Definition iter_str (self : t) : list str :=
  status self :: NEWLINE :: Fields.iter_str (_list self).

Definition to_bytes (self : t) : result bytes :=
  encode_join (iter_str self).

End HTTPHeaders.

(** ** File objects *)

(** A binary file opened for reading: its name, its contents and the
    cursor, which never lies before the start of the file. *)
Record file_obj := mkfile { name : str; content : bytes; pos : nat }.

Definition remaining (f : file_obj) : bytes := skipn (pos f) (content f).

Definition len_Z {A} (l : list A) : Z := Z.of_nat (length l).

(** [f.read(n)]: at most [n] octets from the cursor on, everything up to
    the end of the file for [n = -1]; a buffered reader rejects any other
    negative size. *)
Definition file_read (n : Z) (f : file_obj) : result (bytes * file_obj) :=
  if (n <? -1)%Z then Raise ValueError
  else
    let data := if (n =? -1)%Z then remaining f
                else firstn (Z.to_nat n) (remaining f) in
    Ok (data, mkfile (name f) (content f) (pos f + length data)).

(** [f.seek(p)]: an absolute position, which may lie past the end of the
    file but not before its start. *)
Definition file_seek (p : Z) (f : file_obj) : result (unit * file_obj) :=
  if (p <? 0)%Z then Raise OSError
  else Ok (tt, mkfile (name f) (content f) (Z.to_nat p)).

(** [f.tell()] *)
Definition file_tell (f : file_obj) : result (Z * file_obj) :=
  Ok (Z.of_nat (pos f), f).

(** [f.peek(n)]: octets ahead of the cursor, which stays where it is.  A
    buffered reader may hand out more than [n] octets; it hands out none
    only at the end of the file, and callers only test for that. *)
Definition file_peek (n : Z) (f : file_obj) : result (bytes * file_obj) :=
  Ok (firstn (Z.to_nat n) (remaining f), f).

(** ** State: the file object being read and the warnings logged *)

Inductive log_record : Type :=
| Warn_length_changed (old : Z) (new : pyval).
  (* 'Content block length changed from %d to %d' *)

Record world := mkworld { file : file_obj; warnings : list log_record }.

Definition M (A : Type) : Type := world -> result (A * world).

Definition ret {A} (a : A) : M A := fun w => Ok (a, w).

Definition bind {A B} (m : M A) (k : A -> M B) : M B :=
  fun w => match m w with
           | Ok (a, w') => k a w'
           | Raise e => Raise e
           end.

Definition raise {A} (e : exn) : M A := fun _ => Raise e.

Definition lift {A} (r : result A) : M A :=
  fun w => match r with
           | Ok a => Ok (a, w)
           | Raise e => Raise e
           end.

Definition on_file {A} (op : file_obj -> result (A * file_obj)) : M A :=
  fun w => match op (file w) with
           | Ok (a, f') => Ok (a, mkworld f' (warnings w))
           | Raise e => Raise e
           end.

(** [_logger.warn(...)] *)
Definition warn (r : log_record) : M unit :=
  fun w => Ok (tt, mkworld (file w) (warnings w ++ [r])).

(** [try: m  except ValueError: handler] *)
Definition except_ValueError {A} (m : M A) (handler : M A) : M A :=
  fun w => match m w with
           | Raise ValueError => handler w
           | r => r
           end.

Declare Scope M_scope.
Delimit Scope M_scope with M.
Notation "x <- m ;; k" := (bind m (fun x => k))
  (at level 61, m at next level, right associativity) : M_scope.
Notation "m ;; k" := (bind m (fun _ => k))
  (at level 61, right associativity) : M_scope.

Definition read (n : Z) : M bytes := on_file (file_read n).
Definition seek (p : Z) : M unit := on_file (file_seek p).
Definition tell : M Z := on_file file_tell.
Definition peek (n : Z) : M bytes := on_file (file_peek n).

(** Modelled from the spec: [util.find_file_pattern], whose module is not
    among the sources.  It searches forward from the cursor for the first
    occurrence of [pattern] lying within the next [limit] octets (anywhere
    ahead when no limit is given), answers its offset from the cursor,
    counted to the end of the occurrence when [inclusive], and leaves the
    cursor where it was; [ValueError] reports that there is none. *)
Definition find_file_pattern (pattern : bytes) (limit : option Z)
           (inclusive : bool) : M Z :=
  fun w =>
    let ahead := remaining (file w) in
    let window := match limit with
                  | Some n => firstn (Z.to_nat n) ahead
                  | None => ahead
                  end in
    match partition Byte.eqb pattern window with
    | Some (before, _) =>
      Ok ((len_Z before + if inclusive then len_Z pattern else 0)%Z, w)
    | None => Raise ValueError
    end.

(** ** class BinaryFileRef *)

Module BinaryFileRef.

(** [filename] holds a path or an open file object, which is looked up
    again by its [.name]; either way it is recorded here as that name. *)
Record t := mk {
  filename : option str;
  file_offset : option Z;
  length : option Z
}.

(** [__init__] *)
Definition init : t := mk None None None.

(** [set_source_file] *)
Definition set_source_file (self : t) (filename : str) (offset : Z)
           (length : option Z) : t :=
  mk (Some filename) (Some offset) length.

(** The [while True] loop of [iter_bytes_over_source_file]: the chunks
    yielded and the exception, if any, that ended the generator.  A round
    that does not break has read at least one octet; [None] is only the
    answer of a loop cut short by [fuel]. *)
Fixpoint read_loop (fuel : nat) (self : t) (bytes_read : Z)
         (file_obj : file_obj) : option (list bytes * option exn) :=
  match fuel with
  | O => None
  | S fuel' =>
    let length := match length self with
                  | Some l => Z.min 4096 (l - bytes_read)
                  | None => 4096%Z
                  end in
    match file_read length file_obj with
    | Raise e => Some ([], Some e)
    | Ok (data, file_obj') =>
      let bytes_read := (bytes_read + len_Z data)%Z in
      if bytes_eqb data [] || (length =? 0)%Z then Some ([], None)
      else
        match read_loop fuel' self bytes_read file_obj' with
        | Some (chunks, e) => Some (data :: chunks, e)
        | None => None
        end
    end
  end.

(** [iter_bytes_over_source_file], given the file object that the handle
    cache holds (or opens) for [self.filename]. *)
Definition iter_bytes_over_source_file (self : t) (file_obj : file_obj)
  : option (list bytes * option exn) :=
  let positioned :=
      match file_offset self with
      | Some offset =>
        if (offset =? 0)%Z then Ok (tt, file_obj)
        else file_seek offset file_obj
      | None => Ok (tt, file_obj)
      end in
  match positioned with
  | Raise e => Some ([], Some e)
  | Ok (_, file_obj) =>
    read_loop (S (List.length (remaining file_obj))) self 0 file_obj
  end.

End BinaryFileRef.

(** ** class Header *)

Module Header.

Record t := mk { version : str; fields : Fields.t }.

(** [parse] *)
Definition parse (b : bytes) : result t :=
  (s <- decode b ;;
   '(version_line, field_str) <- unpack2 (split1 NEWLINE s) ;;
   if negb (str_startswith version_line (u "WARC"))
   then Raise IOError_WrongWARCHeader
   else
     fields <- Fields.parse field_str NEWLINE ;;
     Ok (mk (skipn 5 version_line) fields))%result.

(** [iter_str] *)
Definition iter_str (self : t) : list str :=
  [u "WARC/"; version self; NEWLINE] ++ Fields.iter_str (fields self)
  ++ [NEWLINE].

Definition to_bytes (self : t) : result bytes :=
  encode_join (iter_str self).

End Header.

(** ** Content blocks *)

(** The [field_cls] argument of [BlockWithPayload.load]. *)
Inductive field_cls : Type := cls_Fields | cls_HTTPHeaders.

(** An instance of one of the two field classes. *)
Inductive fields_obj : Type :=
| FieldsObj (l : Fields.t)
| HTTPHeadersObj (h : HTTPHeaders.t).

(** [field_cls.parse(s)] *)
Definition field_cls_parse (cls : field_cls) (s : str) : result fields_obj :=
  match cls with
  | cls_Fields => (l <- Fields.parse s NEWLINE ;; Ok (FieldsObj l))%result
  | cls_HTTPHeaders =>
    (h <- HTTPHeaders.parse s NEWLINE ;; Ok (HTTPHeadersObj h))%result
  end.

(** [bytes(fields)] *)
Definition fields_obj_bytes (o : fields_obj) : result bytes :=
  match o with
  | FieldsObj l => Fields.to_bytes l
  | HTTPHeadersObj h => HTTPHeaders.to_bytes h
  end.

(** [fields.iter_str()], by the class of the instance. *)
Definition fields_obj_iter_str (o : fields_obj) : list str :=
  match o with
  | FieldsObj l => Fields.iter_str l
  | HTTPHeadersObj h => HTTPHeaders.iter_str h
  end.

Definition pyval_of_option (o : option Z) : pyval :=
  match o with
  | Some z => PInt z
  | None => PNone
  end.

Module BinaryBlock.

(** A [BinaryBlock] is a [BinaryFileRef] and nothing more. *)
Definition t := BinaryFileRef.t.

(** [load] *)
Definition load (length : Z) : M t :=
  (offset <- tell ;;
   f <- (fun w => Ok (name (file w), w)) ;;
   let binary_block :=
       BinaryFileRef.set_source_file BinaryFileRef.init f offset
                                     (Some length) in
   here <- tell ;;
   seek (here + length) ;;
   ret binary_block)%M.

(** [iter_bytes], given the file object of the handle cache. *)
Definition iter_bytes (self : t) (file_obj : file_obj)
  : option (list bytes * option exn) :=
  BinaryFileRef.iter_bytes_over_source_file self file_obj.

End BinaryBlock.

Module BlockWithPayload.

Record t := mk { fields : fields_obj; payload : BinaryFileRef.t }.

(** [load] *)
Definition load (length : Z) (field_cls : field_cls) : M t :=
  (field_length <-
     except_ValueError
       (find_file_pattern FIELD_DELIM_BYTES (Some length) true)
       (ret length) ;;
   data <- read field_length ;;
   text <- lift (decode data) ;;
   fields <- lift (field_cls_parse field_cls text) ;;
   let payload_length := (length - field_length)%Z in
   offset <- tell ;;
   f <- (fun w => Ok (name (file w), w)) ;;
   let payload :=
       BinaryFileRef.set_source_file BinaryFileRef.init f offset
                                     (Some payload_length) in
   here <- tell ;;
   seek (here + payload_length) ;;
   ret (mk fields payload))%M.

(** The [length] property: the recomputed length. *)
Definition length (self : t) : result pyval :=
  (bs <- fields_obj_bytes (fields self) ;;
   match BinaryFileRef.length (payload self) with
   | Some n => Ok (PInt (len_Z bs + len_Z NEWLINE_BYTES + n))
   | None => Raise TypeError
   end)%result.

(** [iter_bytes]: the encoded field chunks, one line terminator, the
    payload chunks; [file_obj] is the file object of the handle cache. *)
Definition iter_bytes (self : t) (file_obj : file_obj)
  : option (list bytes * option exn) :=
  match encode_each (fields_obj_iter_str (fields self)) with
  | (chunks, Some e) => Some (chunks, Some e)
  | (chunks, None) =>
    match BinaryFileRef.iter_bytes_over_source_file (payload self)
                                                    file_obj with
    | Some (chunks', e) => Some (chunks ++ NEWLINE_BYTES :: chunks', e)
    | None => None
    end
  end.

End BlockWithPayload.

Inductive ContentBlock : Type :=
| BinaryBlock_ (blk : BinaryBlock.t)
| BlockWithPayload_ (blk : BlockWithPayload.t).

(** [content_block.length], an attribute of the one class and a property
    of the other. *)
Definition content_block_length (c : ContentBlock) : result pyval :=
  match c with
  | BinaryBlock_ blk => Ok (pyval_of_option (BinaryFileRef.length blk))
  | BlockWithPayload_ blk => BlockWithPayload.length blk
  end.

(** [content_block.iter_bytes()] *)
Definition content_block_iter_bytes (c : ContentBlock) (file_obj : file_obj)
  : option (list bytes * option exn) :=
  match c with
  | BinaryBlock_ blk => BinaryBlock.iter_bytes blk file_obj
  | BlockWithPayload_ blk => BlockWithPayload.iter_bytes blk file_obj
  end.

(** ** class Record *)

Module Record.

Record t := mk {
  header : Header.t;
  content_block : option ContentBlock;
  file_offset : option Z
}.

(** The [content_length] property. *)
Definition content_length (self : t) : result Z :=
  (v <- Fields.getitem (Header.fields (header self)) (u "Content-Length") ;;
   int_of v)%result.

(** The [content_length] setter. *)
Definition set_content_length (self : t) (i : pyval) : result t :=
  (n <- int_of i ;;
   fields <- Fields.setitem (Header.fields (header self))
                            (u "Content-Length") (PInt n) ;;
   Ok (mk (Header.mk (Header.version (header self)) fields)
          (content_block self) (file_offset self)))%result.

(** The [record_id] and [warc_type] properties. *)
Definition record_id (self : t) : result pyval :=
  Fields.getitem (Header.fields (header self)) (u "WARC-Record-ID").
Definition warc_type (self : t) : result pyval :=
  Fields.getitem (Header.fields (header self)) (u "WARC-Type").

(** The [record_id] and [warc_type] setters. *)
Definition set_record_id (self : t) (s : pyval) : result t :=
  (fields <- Fields.setitem (Header.fields (header self))
                            (u "WARC-Record-ID") s ;;
   Ok (mk (Header.mk (Header.version (header self)) fields)
          (content_block self) (file_offset self)))%result.
Definition set_warc_type (self : t) (s : pyval) : result t :=
  (fields <- Fields.setitem (Header.fields (header self))
                            (u "WARC-Type") s ;;
   Ok (mk (Header.mk (Header.version (header self)) fields)
          (content_block self) (file_offset self)))%result.

(** [iter_bytes]: the header chunks, the chunks of the content block if
    there is one, and two line terminators. *)
Definition iter_bytes (self : t) (file_obj : file_obj)
  : option (list bytes * option exn) :=
  match encode_each (Header.iter_str (header self)) with
  | (chunks, Some e) => Some (chunks, Some e)
  | (chunks, None) =>
    match content_block self with
    | Some block =>
      match content_block_iter_bytes block file_obj with
      | Some (chunks', None) =>
        Some (chunks ++ chunks' ++ [NEWLINE_BYTES; NEWLINE_BYTES], None)
      | Some (chunks', Some e) => Some (chunks ++ chunks', Some e)
      | None => None
      end
    | None => Some (chunks ++ [NEWLINE_BYTES; NEWLINE_BYTES], None)
    end
  end.

(** The dispatch on [preserve_block] and the content type in [load];
    a header that was parsed holds [str] values only. *)
Definition load_block (preserve_block : bool) (content_type : pyval)
           (block_length : Z) : M ContentBlock :=
  if negb preserve_block
     && match content_type with
        | PStr s => negb (str_eqb s [])
                    && str_startswith s (u "application/http")
        | _ => false
        end
  then (blk <- BlockWithPayload.load block_length cls_HTTPHeaders ;;
        ret (BlockWithPayload_ blk))%M
  else if negb preserve_block
          && pyval_eqb content_type (PStr (u "application/warc-fields"))
  then (blk <- BlockWithPayload.load block_length cls_Fields ;;
        ret (BlockWithPayload_ blk))%M
  else (blk <- BinaryBlock.load block_length ;;
        ret (BinaryBlock_ blk))%M.

(** [load] *)
Definition load (preserve_block : bool) : M t :=
  (offset <- tell ;;
   header_length <- find_file_pattern FIELD_DELIM_BYTES None true ;;
   data <- read header_length ;;
   header <- lift (Header.parse data) ;;
   let record := mk header None (Some offset) in
   block_length <- lift (content_length record) ;;
   content_type <- lift (Fields.get (Header.fields header)
                                    (u "content-type") PNone) ;;
   block <- load_block preserve_block content_type block_length ;;
   let record := mk header (Some block) (Some offset) in
   new_content_length <- lift (content_block_length block) ;;
   if negb (pyval_eqb (PInt block_length) new_content_length)
   then
     old <- lift (content_length record) ;;
     warn (Warn_length_changed old new_content_length) ;;
     lift (set_content_length record new_content_length)
   else ret record)%M.

End Record.

(** ** class WARC *)

Module WARC.

(** [read_record] *)
Definition read_record (preserve_block : bool) : M (Record.t * bool) :=
  (record <- Record.load preserve_block ;;
   data <- read (len_Z FIELD_DELIM_BYTES) ;;
   if negb (bytes_eqb data FIELD_DELIM_BYTES)
   then (here <- tell ;; raise (IOError_BlocksNotSeparated here))
   else
     ahead <- peek 1 ;;
     if bytes_eqb ahead [] then ret (record, false)
     else ret (record, true))%M.

(** [read_file_object]: the records appended to [records] when the loop
    ends; [None] is only the answer of a loop cut short by [fuel]. *)
Fixpoint read_file_object (fuel : nat) (records : list Record.t)
  : M (option (list Record.t)) :=
  match fuel with
  | O => ret None
  | S fuel' =>
    (rm <- read_record false ;;
     let records := records ++ [fst rm] in
     if negb (snd rm) then ret (Some records)
     else read_file_object fuel' records)%M
  end.

End WARC.

(** ** Vocabulary of the statements *)

(** [sub in s] *)
Fixpoint contains (sub s : str) : bool :=
  str_startswith s sub
  || match s with
     | [] => false
     | _ :: s' => contains sub s'
     end.

(** [':' in s] *)
Definition has_colon (s : str) : bool := existsb (N.eqb 58) s.

(** [s] begins with a space or a tab, the marks of a continuation line. *)
Definition starts_blank (s : str) : bool :=
  match s with
  | c :: _ => ((c =? 32) || (c =? 9))%N
  | [] => false
  end.

(** [s] begins with a white-space character, which [lstrip] would drop. *)
Definition starts_space (s : str) : bool :=
  match s with
  | c :: _ => isspace c
  | [] => false
  end.

(** The field list holding the given (name, value) pairs of text. *)
Definition fields_of_pairs (pairs : list (str * str)) : Fields.t :=
  map (fun p => (fst p, PStr (snd p))) pairs.

(** The line that [iter_str] emits for a pair, without its terminator. *)
Definition field_line (p : str * str) : str := fst p ++ u ": " ++ snd p.

(** [sub in s] for [bytes]. *)
Fixpoint bytes_contains (sub s : bytes) : bool :=
  bytes_startswith s sub
  || match s with
     | [] => false
     | _ :: s' => bytes_contains sub s'
     end.

(** The three shapes a content block can take. *)
Inductive block_kind : Type :=
| Binary
| WithHTTPHeaders
| WithFields.

Definition kind_of (block : ContentBlock) : block_kind :=
  match block with
  | BinaryBlock_ _ => Binary
  | BlockWithPayload_ blk =>
    match BlockWithPayload.fields blk with
    | HTTPHeadersObj _ => WithHTTPHeaders
    | FieldsObj _ => WithFields
    end
  end.

(** The dispatch in the words of the specification: preservation wins,
    then a content type that starts with application/http, then one that
    is exactly application/warc-fields; a binary block in every other case,
    an absent content type among them. *)
Definition dispatch_spec (preserve_block : bool) (content_type : pyval)
  : block_kind :=
  if preserve_block then Binary
  else match content_type with
       | PStr s =>
         if str_startswith s (u "application/http") then WithHTTPHeaders
         else if str_eqb s (u "application/warc-fields") then WithFields
         else Binary
       | _ => Binary
       end.

(** A computation that logs nothing. *)
Definition quiet {A} (m : M A) : Prop :=
  forall w a w', m w = Ok (a, w') -> warnings w' = warnings w.


(** ** Sample archives *)

Definition CRLF : string := String "013" (String "010" EmptyString).

(** Two warcinfo records without content. *)
Definition warcinfo_record : string :=
  ("WARC/1.0" ++ CRLF ++ "WARC-Type: warcinfo" ++ CRLF
   ++ "Content-Length: 0" ++ CRLF ++ CRLF ++ CRLF ++ CRLF)%string.

Definition two_records : world :=
  mkworld (mkfile (u "two.warc") (b (warcinfo_record ++ warcinfo_record)) 0)
          [].

(** A record of WARC fields whose field line carries blanks that the
    serialization does not keep: 23 octets declared, 21 recomputed. *)
Definition padded_fields : world :=
  mkworld
    (mkfile (u "fields.warc")
            (b ("WARC/1.0" ++ CRLF
                ++ "Content-Type: application/warc-fields" ++ CRLF
                ++ "Content-Length: 23" ++ CRLF ++ CRLF
                ++ "k:   v" ++ CRLF ++ CRLF ++ "payload-bytes"
                ++ CRLF ++ CRLF)%string) 0)
    [].

(** A record holding an HTTP response. *)
Definition http_response : world :=
  mkworld
    (mkfile (u "http.warc")
            (b ("WARC/1.0" ++ CRLF
                ++ "Content-Type: application/http; msgtype=response" ++ CRLF
                ++ "Content-Length: 30" ++ CRLF ++ CRLF
                ++ "HTTP/1.1 200 OK" ++ CRLF ++ "A: b" ++ CRLF ++ CRLF
                ++ "hello" ++ CRLF ++ CRLF)%string) 0)
    [].

(** An archive whose second record declares the length -37: loading it
    moves the cursor back onto the delimiter that ends the first record.
    The cursor stands where the second record starts. *)
Definition rewinding_archive : world :=
  mkworld
    (mkfile (u "rewind.warc")
            (b (warcinfo_record ++ "WARC/1.0" ++ CRLF
                ++ "Content-Length: -37" ++ CRLF ++ CRLF)%string) 56)
    [].

(** * Properties *)

(** ** Equality tests *)

Lemma str_eqb_eq (x y : str) : str_eqb x y = true <-> x = y.
Proof.
  unfold str_eqb. destruct (list_eq_dec N.eq_dec x y); split; congruence.
Qed.

Lemma str_eqb_neq (x y : str) : str_eqb x y = false <-> x <> y.
Proof.
  unfold str_eqb. destruct (list_eq_dec N.eq_dec x y); split; congruence.
Qed.

Lemma bytes_eqb_eq (x y : bytes) : bytes_eqb x y = true <-> x = y.
Proof.
  unfold bytes_eqb.
  destruct (list_eq_dec Byte.byte_eq_dec x y); split; congruence.
Qed.

Lemma bytes_eqb_neq (x y : bytes) : bytes_eqb x y = false <-> x <> y.
Proof.
  unfold bytes_eqb.
  destruct (list_eq_dec Byte.byte_eq_dec x y); split; congruence.
Qed.

Lemma same_name_lower (k name : str) :
  Fields.same_name k name = true <-> lower k = lower name.
Proof. apply str_eqb_eq. Qed.

Lemma same_name_refl (name : str) : Fields.same_name name name = true.
Proof. now apply same_name_lower. Qed.

Lemma same_name_trans_l (k n1 n2 : str) :
  lower n2 = lower n1 -> Fields.same_name k n2 = Fields.same_name k n1.
Proof. unfold Fields.same_name. now intros ->. Qed.

(** ** Lookup in a field list *)

Section FieldsLookup.

Variable name : str.

(** The fields of [l] do not bear [name]. *)
Local Abbreviation others l :=
  (Forall (fun x : str * pyval => Fields.same_name (fst x) name = false) l).

(** A prefix without the name is skipped by the lookup. *)
Lemma getitem_skip (pre rest : Fields.t) :
  others pre ->
  Fields.getitem (pre ++ rest) name = Fields.getitem rest name.
Proof.
  induction 1 as [|[k v] pre Hk _ IH]; simpl; [reflexivity|].
  simpl in Hk. now rewrite Hk.
Qed.

Lemma getitem_absent (self : Fields.t) :
  others self -> Fields.getitem self name = Ok PNone.
Proof.
  intros H. rewrite <- (app_nil_r self). now rewrite getitem_skip.
Qed.

Lemma delitem_others (self : Fields.t) :
  others (Fields.delitem self name).
Proof.
  apply Forall_forall. intros x Hx.
  apply filter_In in Hx. now apply negb_true_iff.
Qed.

Lemma delitem_fixed (pre : Fields.t) :
  others pre -> Fields.delitem pre name = pre.
Proof.
  induction 1 as [|x pre Hx _ IH]; simpl; [reflexivity|].
  rewrite Hx. simpl. now rewrite IH.
Qed.

(** [index] answers [i] exactly when the list splits at [i] into a prefix
    without the name and a field bearing it. *)
Lemma index_from_split (self : Fields.t) : forall base i,
  Fields.index_from base self name = Ok i ->
  exists pre k v post,
    self = pre ++ (k, v) :: post /\ i = base + length pre /\
    Fields.same_name k name = true /\ others pre.
Proof.
  induction self as [|[k v] rest IH]; intros base i H; simpl in H.
  - discriminate.
  - destruct (Fields.same_name k name) eqn:Hk.
    + injection H as <-. exists [], k, v, rest. simpl.
      repeat split; auto; try lia.
    + destruct (IH _ _ H) as (pre & k' & v' & post & -> & -> & Hk' & Hpre).
      exists ((k, v) :: pre), k', v', post. simpl.
      repeat split; auto; try lia.
Qed.

Lemma index_from_only_KeyError (self : Fields.t) : forall base e,
  Fields.index_from base self name = Raise e -> e = KeyError name.
Proof.
  induction self as [|[k v] rest IH]; intros base e H; simpl in H.
  - congruence.
  - destruct (Fields.same_name k name); [discriminate | eauto].
Qed.

Lemma index_from_absent (self : Fields.t) : forall base e,
  Fields.index_from base self name = Raise e -> others self.
Proof.
  induction self as [|[k v] rest IH]; intros base e H; simpl in H.
  - constructor.
  - destruct (Fields.same_name k name) eqn:Hk; [discriminate|].
    constructor; eauto.
Qed.

End FieldsLookup.

Lemma list_insert_app {A} (pre rest : list A) (x : A) :
  list_insert (length pre) x (pre ++ rest) = pre ++ x :: rest.
Proof.
  unfold list_insert.
  rewrite firstn_app, skipn_app, Nat.sub_diag, firstn_all, skipn_all.
  simpl. now rewrite app_nil_r.
Qed.

(** What [__setitem__] builds. *)
Lemma setitem_shape (self : Fields.t) (name : str) (value : pyval) :
  exists pre post,
    Fields.setitem self name value = Ok (pre ++ (name, value) :: post) /\
    Forall (fun x => Fields.same_name (fst x) name = false) pre /\
    Forall (fun x => Fields.same_name (fst x) name = false) post /\
    Fields.delitem self name = pre ++ post /\
    firstn (length pre) self = pre /\
    (forall i, Fields.index self name = Ok i -> i = length pre).
Proof.
  unfold Fields.setitem.
  destruct (Fields.index self name) as [i|e] eqn:Hi.
  - destruct (index_from_split _ _ _ _ Hi)
      as (pre & k & v & post & -> & -> & Hk & Hpre).
    exists pre, (Fields.delitem post name).
    assert (Hdel : Fields.delitem (pre ++ (k, v) :: post) name
                   = pre ++ Fields.delitem post name).
    { unfold Fields.delitem at 1. rewrite filter_app. simpl. rewrite Hk. simpl.
      fold (Fields.delitem pre name). fold (Fields.delitem post name).
      now rewrite delitem_fixed. }
    rewrite Hdel. simpl. rewrite list_insert_app.
    repeat split; auto.
    + apply delitem_others.
    + now rewrite firstn_app, Nat.sub_diag, firstn_all, app_nil_r.
    + intros i Hi'. congruence.
  - pose proof (index_from_only_KeyError _ _ _ _ Hi) as ->.
    pose proof (index_from_absent _ _ _ _ Hi) as Habs.
    exists self, []. repeat split; auto.
    + now rewrite app_nil_r, delitem_fixed.
    + apply firstn_all.
    + discriminate.
Qed.

(** ** Fields.get_list *)

(** C5: on the field list A=1, B=2, a=3 the call [get_list('a')] answers the
    two matching fields as (name, value) pairs; the values 1 and 3 alone are
    what is left after projecting each pair, which the method does not do. *)
Theorem get_list_answers_pairs :
  let self := [(u "A", PStr (u "1")); (u "B", PStr (u "2"));
               (u "a", PStr (u "3"))] in
  Fields.get_list self (u "a")
  = [(u "A", PStr (u "1")); (u "a", PStr (u "3"))]
  /\ map snd (Fields.get_list self (u "a")) = [PStr (u "1"); PStr (u "3")].
Proof. split; reflexivity. Qed.

(** ** Fields.__setitem__ *)



(** ** Fields.get *)

(** C10: when no field of the list bears [name] up to letter case,
    [__getitem__] returns [None] without raising, and so [get] returns
    [None] whatever [default] is. *)
Theorem get_absent_ignores_default
        (self : Fields.t) (name : str) (default : pyval) :
  (forall k v, In (k, v) self -> lower k <> lower name) ->
  Fields.getitem self name = Ok PNone /\
  Fields.get self name default = Ok PNone.
Proof.
  intros Habs.
  assert (H : Fields.getitem self name = Ok PNone).
  { apply getitem_absent. apply Forall_forall. intros [k v] Hin. simpl.
    destruct (Fields.same_name k name) eqn:Hk; [|reflexivity].
    apply same_name_lower in Hk. now destruct (Habs _ _ Hin). }
  split; [exact H|]. unfold Fields.get. now rewrite H.
Qed.

Lemma get_absent_ignores_default_witness :
  Fields.getitem [(u "Host", PStr (u "a"))] (u "ETag") = Ok PNone /\
  Fields.get [(u "Host", PStr (u "a"))] (u "ETag") (PStr (u "none")) = Ok PNone.
Proof.
  apply (@get_absent_ignores_default
           [(u "Host", PStr (u "a"))] (u "ETag") (PStr (u "none"))).
  intros k v [H|[]]. injection H as <- <-. vm_compute. discriminate.
Defined.

(** ** Splitting text *)

Lemma NEWLINE_eq : NEWLINE = [13; 10]%N.
Proof. reflexivity. Qed.

Lemma starts_newline (s : str) :
  str_startswith s NEWLINE = true <-> exists t, s = (13 :: 10 :: t)%N.
Proof.
  rewrite NEWLINE_eq. unfold str_startswith. split.
  - destruct s as [|x [|y t]]; simpl; try discriminate.
    + now rewrite andb_false_r.
    + intros H. apply andb_true_iff in H. destruct H as [Hx Hy].
      apply andb_true_iff in Hy. destruct Hy as [Hy _].
      apply N.eqb_eq in Hx, Hy. subst. now exists t.
  - intros [t ->]. reflexivity.
Qed.

Lemma contains_cons (sub s : str) (x : char) :
  contains sub (x :: s) = str_startswith (x :: s) sub || contains sub s.
Proof. reflexivity. Qed.

(** A name and a value without the terminator make a line without it: the
    separator between them is no part of one. *)
Lemma contains_newline_field (name value : str) :
  contains NEWLINE name = false -> contains NEWLINE value = false ->
  contains NEWLINE (name ++ u ": " ++ value) = false.
Proof.
  intros Hn Hv. induction name as [|x name IH].
  - change (contains NEWLINE value = false). exact Hv.
  - rewrite contains_cons in Hn.
    apply orb_false_iff in Hn. destruct Hn as [Hx Hn].
    cbn [app]. rewrite contains_cons, (IH Hn), orb_false_r.
    destruct (str_startswith (x :: name ++ u ": " ++ value) NEWLINE) eqn:E;
      [|reflexivity].
    apply starts_newline in E. destruct E as [t E].
    destruct name as [|y name]; [discriminate|].
    injection E as -> -> _. discriminate.
Qed.

(** The first terminator after a line without one is the one that ends
    the line. *)
Lemma partition_newline (line rest : str) :
  contains NEWLINE line = false ->
  partition N.eqb NEWLINE (line ++ NEWLINE ++ rest) = Some (line, rest).
Proof.
  intros H. induction line as [|x line IH].
  - reflexivity.
  - rewrite contains_cons in H.
    apply orb_false_iff in H. destruct H as [Hx H].
    cbn [app partition].
    fold (str_startswith (x :: line ++ NEWLINE ++ rest) NEWLINE).
    destruct (str_startswith (x :: line ++ NEWLINE ++ rest) NEWLINE) eqn:E.
    + apply starts_newline in E. destruct E as [t E].
      destruct line as [|y line]; [discriminate|].
      injection E as -> -> _. discriminate.
    + now rewrite (IH H).
Qed.

Lemma partition_colon (name rest : str) :
  has_colon name = false ->
  partition N.eqb (u ":") (name ++ 58%N :: rest) = Some (name, rest).
Proof.
  intros H. induction name as [|x name IH].
  - reflexivity.
  - unfold has_colon in H. cbn [existsb] in H.
    apply orb_false_iff in H. destruct H as [Hx H].
    change (u ":") with [58%N] in *.
    cbn [app partition startswith]. rewrite (N.eqb_sym x 58), Hx.
    cbn [andb]. now rewrite (IH H).
Qed.

(** [re.split] recovers the lines of a text made of terminated lines,
    and a last, empty piece after the final terminator. *)
Lemma re_split_from_lines (lines : list str) : forall fuel,
  Forall (fun line => contains NEWLINE line = false) lines ->
  length (concat (map (fun line => line ++ NEWLINE) lines)) <= fuel ->
  re_split_from fuel NEWLINE (concat (map (fun line => line ++ NEWLINE) lines))
  = lines ++ [[]].
Proof.
  induction lines as [|line lines IH]; intros fuel Hl Hfuel.
  - destruct fuel; reflexivity.
  - inversion Hl as [|? ? Hline Hrest]; subst.
    cbn [map concat] in *. rewrite <- app_assoc in *.
    destruct fuel as [|fuel].
    + rewrite !length_app in Hfuel. simpl in Hfuel. lia.
    + cbn [re_split_from]. rewrite partition_newline by assumption.
      simpl. f_equal. apply IH; [assumption|].
      rewrite !length_app in Hfuel. simpl in Hfuel. lia.
Qed.

(** ** Fields.parse after Fields.iter_str *)

Lemma to_str_lines (pairs : list (str * str)) :
  Fields.to_str (fields_of_pairs pairs)
  = concat (map (fun line => line ++ NEWLINE) (map field_line pairs)).
Proof.
  unfold Fields.to_str, Fields.iter_str.
  induction pairs as [|[n v] pairs IH]; [reflexivity|].
  change (fields_of_pairs ((n, v) :: pairs))
    with ((n, PStr v) :: fields_of_pairs pairs).
  cbn [map flat_map concat app format_val].
  rewrite IH. unfold field_line. cbn [fst snd].
  now rewrite <- !app_assoc.
Qed.

Lemma lstrip_fixed (s : str) : starts_space s = false -> lstrip s = s.
Proof. destruct s as [|c s]; simpl; [reflexivity|]. now intros ->. Qed.

Lemma join_multilines_next_field (value : str) (p : str * str)
      (lines : list str) :
  starts_blank (fst p) = false ->
  Fields.join_multilines value (field_line p :: lines)
  = (value, field_line p :: lines).
Proof.
  destruct p as [[|c n] v]; intros H; [reflexivity|].
  unfold field_line. simpl in H |- *. now rewrite H.
Qed.

Lemma parse_loop_done (fuel : nat) (fields : Fields.t) :
  Fields.parse_loop fuel fields [] = Ok fields.
Proof. now destruct fuel. Qed.

(** The loop of [parse] over the lines of a serialized list, followed by
    the empty piece after the last terminator. *)
Lemma parse_loop_field_lines (pairs : list (str * str)) :
  forall (fields : Fields.t) (fuel : nat),
    length pairs < fuel ->
    Forall (fun p => has_colon (fst p) = false /\
                     starts_space (snd p) = false) pairs ->
    Forall (fun p => starts_blank (fst p) = false) (tl pairs) ->
    Fields.parse_loop fuel fields (map field_line pairs ++ [[]])
    = Ok (fields ++ fields_of_pairs pairs).
Proof.
  induction pairs as [|[n v] pairs IH]; intros fields fuel Hfuel Hok Htl.
  - destruct fuel as [|fuel]; [simpl in Hfuel; lia|].
    simpl. now rewrite parse_loop_done, app_nil_r.
  - destruct fuel as [|fuel]; [simpl in Hfuel; lia|].
    inversion Hok as [|? ? [Hn Hv] Hok']; subst. simpl in Hn, Hv, Htl.
    cbn [map app Fields.parse_loop].
    replace (str_eqb (field_line (n, v)) []) with false.
    2:{ symmetry. apply str_eqb_neq. unfold field_line. simpl.
        destruct n; discriminate. }
    unfold split1, field_line at 1. cbn [fst snd].
    change (u ": " ++ v) with (58%N :: 32%N :: v).
    rewrite partition_colon by assumption.
    cbn [unpack2 rbind]. change (lstrip (32%N :: v)) with (lstrip v).
    rewrite lstrip_fixed by assumption.
    destruct pairs as [|p pairs].
    + simpl. rewrite parse_loop_done. reflexivity.
    + cbn [map app]. inversion Htl as [|? ? Hp Htl']; subst.
      rewrite join_multilines_next_field by assumption.
      change (field_line p :: map field_line pairs ++ [[]])
        with (map field_line (p :: pairs) ++ [[]]).
      rewrite IH; auto.
      * unfold Fields.add. rewrite <- app_assoc. reflexivity.
      * simpl in Hfuel |- *. lia.
Qed.

(** C6, as it stands, fails: a value that begins with a space is
    serialized after the separator's own space, and [parse] strips both.
    The name A holds no colon and no line terminator, yet the list does not
    come back.  Nor does a list with a value that holds a line terminator,
    or one whose second name begins with a space, which [parse] folds into
    the value before it. *)
Lemma parse_iter_str_drops_leading_space :
  let pairs := [(u "A", u " x")] in
  Forall (fun p => has_colon (fst p) = false /\
                   contains NEWLINE (fst p) = false /\
                   existsb (N.eqb 10) (fst p) = false) pairs /\
  Fields.parse (Fields.to_str (fields_of_pairs pairs)) NEWLINE
  = Ok (fields_of_pairs [(u "A", u "x")]) /\
  Fields.parse (Fields.to_str (fields_of_pairs pairs)) NEWLINE
  <> Ok (fields_of_pairs pairs) /\
  Fields.parse
    (Fields.to_str (fields_of_pairs [(u "A", u "x" ++ NEWLINE ++ u "B: y")]))
    NEWLINE
  = Ok (fields_of_pairs [(u "A", u "x"); (u "B", u "y")]) /\
  Fields.parse
    (Fields.to_str (fields_of_pairs [(u "B", u "y"); (u " A", u "x")]))
    NEWLINE
  = Ok (fields_of_pairs [(u "B", u "yA: x")]).
Proof.
  cbv zeta. split; [|split; [|split; [|split]]].
  - repeat constructor.
  - reflexivity.
  - vm_compute. discriminate.
  - reflexivity.
  - reflexivity.
Qed.

(** C6, amended: a list of (name, value) pairs of text comes back from
    [parse] applied to its serialization, pair by pair and in order,
    provided that no name holds a colon, no name and no value holds the
    line terminator, no value begins with white space, and no name after
    the first begins with a space or a tab. *)
Theorem parse_iter_str_round_trip (pairs : list (str * str)) :
  Forall (fun p => has_colon (fst p) = false /\
                   contains NEWLINE (fst p) = false /\
                   contains NEWLINE (snd p) = false /\
                   starts_space (snd p) = false) pairs ->
  Forall (fun p => starts_blank (fst p) = false) (tl pairs) ->
  Fields.parse (Fields.to_str (fields_of_pairs pairs)) NEWLINE
  = Ok (fields_of_pairs pairs).
Proof.
  intros Hok Htl. unfold Fields.parse, re_split.
  rewrite to_str_lines, re_split_from_lines.
  - rewrite length_app, length_map. apply parse_loop_field_lines.
    + simpl. lia.
    + revert Hok. apply Forall_impl. tauto.
    + assumption.
  - apply Forall_map. revert Hok. apply Forall_impl.
    intros [n v] (_ & Hn & Hv & _). now apply contains_newline_field.
  - apply Nat.le_refl.
Qed.

Lemma parse_iter_str_round_trip_witness :
  Fields.parse
    (Fields.to_str (fields_of_pairs [(u " Host", u "a b "); (u "", u "");
                                     (u "ETag", u "x:y")])) NEWLINE
  = Ok (fields_of_pairs [(u " Host", u "a b "); (u "", u "");
                         (u "ETag", u "x:y")]).
Proof.
  apply (parse_iter_str_round_trip
           [(u " Host", u "a b "); (u "", u ""); (u "ETag", u "x:y")]).
  - repeat constructor.
  - repeat constructor.
Defined.

(** ** Header.parse *)



(** So does the parsing of field lines. *)
Lemma parse_loop_raises (fuel : nat) :
  forall (fields : Fields.t) (lines : list str) (e : exn),
    Fields.parse_loop fuel fields lines = Raise e -> e = ValueError.
Proof.
  induction fuel as [|fuel IH]; intros fields lines e H.
  - discriminate.
  - destruct lines as [|line lines]; [discriminate|].
    cbn [Fields.parse_loop] in H.
    destruct (str_eqb line []); [eauto|].
    unfold split1 in H.
    destruct (partition N.eqb (u ":") line) as [[name value]|];
      cbn [unpack2 rbind] in H; [|congruence].
    destruct (Fields.join_multilines (lstrip value) lines) as [value' lines'].
    eauto.
Qed.




(** ** BinaryFileRef.iter_bytes_over_source_file *)

Lemma remaining_after_read (f : file_obj) (k : nat) :
  skipn (pos f + k) (content f) = skipn k (remaining f).
Proof. unfold remaining. now rewrite skipn_skipn, Nat.add_comm. Qed.






(** ** The bounded loops are never cut short *)

Lemma startswith_length {A} (eqb : A -> A -> bool) (p : list A) :
  forall s, startswith eqb s p = true -> length p <= length s.
Proof.
  induction p as [|x p IH]; intros s H; simpl; [lia|].
  destruct s as [|y s]; simpl in H; [discriminate|].
  apply andb_true_iff in H. destruct H as [_ H]. apply IH in H. simpl. lia.
Qed.

(** What follows an occurrence of a non-empty separator is shorter than
    the text. *)
Lemma partition_shorter {A} (eqb : A -> A -> bool) (sep : list A) :
  sep <> [] ->
  forall s before after,
    partition eqb sep s = Some (before, after) -> length after < length s.
Proof.
  intros Hsep. induction s as [|c s IH]; intros before after H.
  - simpl in H. destruct (startswith eqb [] sep) eqn:E; [|discriminate].
    apply startswith_length in E. destruct sep; [congruence | simpl in E; lia].
  - cbn [partition] in H.
    destruct (startswith eqb (c :: s) sep) eqn:E.
    + injection H as _ <-. apply startswith_length in E.
      rewrite length_skipn. destruct sep; [congruence | simpl in *; lia].
    + destruct (partition eqb sep s) as [[x y]|] eqn:P; [|discriminate].
      injection H as _ <-. specialize (IH _ _ eq_refl). simpl. lia.
Qed.

(** [re_split] gives [re_split_from] rounds enough: more make no
    difference. *)
Lemma re_split_from_enough (sep : str) :
  sep <> [] ->
  forall fuel fuel' s,
    length s <= fuel -> length s <= fuel' ->
    re_split_from fuel sep s = re_split_from fuel' sep s.
Proof.
  intros Hsep.
  assert (Hnil : forall fuel, re_split_from fuel sep [] = [[]]).
  { intros [|fuel]; [reflexivity|].
    destruct sep as [|x sep]; [congruence | reflexivity]. }
  induction fuel as [|fuel IH]; intros fuel' s H H'.
  - destruct s; [|simpl in H; lia]. now rewrite !Hnil.
  - destruct fuel' as [|fuel'].
    + destruct s; [|simpl in H'; lia]. now rewrite !Hnil.
    + cbn [re_split_from].
      destruct (partition N.eqb sep s) as [[before after]|] eqn:P;
        [|reflexivity].
      apply partition_shorter in P; [|assumption].
      f_equal. apply IH; unfold str, char in *; lia.
Qed.

Lemma join_multilines_shorter (lines : list str) : forall value,
  length (snd (Fields.join_multilines value lines)) <= length lines.
Proof.
  induction lines as [|line lines IH]; intros value; simpl; [lia|].
  destruct line as [|c tail]; simpl; [lia|].
  destruct (negb _); simpl; [lia|]. specialize (IH (value ++ tail)). lia.
Qed.

(** [parse] gives its loop rounds enough to empty the deque. *)
Lemma parse_loop_enough (fuel : nat) : forall fuel' fields lines,
  length lines <= fuel -> length lines <= fuel' ->
  Fields.parse_loop fuel fields lines = Fields.parse_loop fuel' fields lines.
Proof.
  induction fuel as [|fuel IH]; intros fuel' fields lines H H'.
  - destruct lines; [|simpl in H; lia]. now rewrite !parse_loop_done.
  - destruct lines as [|line lines]; [now rewrite !parse_loop_done|].
    destruct fuel' as [|fuel']; [simpl in H'; lia|].
    simpl in H, H'. cbn [Fields.parse_loop].
    destruct (str_eqb line []); [apply IH; lia|].
    destruct (unpack2 (split1 (u ":") line)) as [[name value]|];
      cbn [rbind]; [|reflexivity].
    pose proof (join_multilines_shorter lines (lstrip value)) as Hj.
    destruct (Fields.join_multilines (lstrip value) lines) as [v rest].
    simpl in Hj. apply IH; lia.
Qed.

(** The generator of [iter_bytes_over_source_file] always comes to an end:
    a round that goes on has moved the cursor forward. *)
Lemma read_loop_ends (self : BinaryFileRef.t) :
  forall (fuel : nat) (bytes_read : Z) (f : file_obj),
    length (remaining f) < fuel ->
    BinaryFileRef.read_loop fuel self bytes_read f <> None.
Proof.
  induction fuel as [|fuel IH]; intros bytes_read f Hfuel; [lia|].
  cbn [BinaryFileRef.read_loop].
  set (n := match BinaryFileRef.length self with
            | Some l => Z.min 4096 (l - bytes_read)
            | None => 4096%Z
            end).
  unfold file_read. destruct (n <? -1)%Z; [discriminate|].
  set (data := if (n =? -1)%Z then remaining f
               else firstn (Z.to_nat n) (remaining f)).
  destruct (bytes_eqb data [] || (n =? 0)%Z) eqn:Hstop; [discriminate|].
  apply orb_false_iff in Hstop. destruct Hstop as [Hne _].
  apply bytes_eqb_neq in Hne.
  assert (Hlen : 0 < length data <= length (remaining f)).
  { split; [destruct data; [congruence | simpl; lia]|].
    unfold data. destruct (n =? -1)%Z; [lia|]. rewrite length_firstn. lia. }
  specialize (IH (bytes_read + len_Z data)%Z
                 (mkfile (name f) (content f) (pos f + length data))).
  destruct (BinaryFileRef.read_loop _ _ _ _) as [[chunks e]|];
    [discriminate|].
  apply IH. unfold remaining at 1. cbn [pos content].
  rewrite remaining_after_read, length_skipn. lia.
Qed.

(** ** The state-and-exception monad *)

Lemma bind_Ok {A B} (m : M A) (k : A -> M B) (w : world) (r : B * world) :
  bind m k w = Ok r -> exists a w1, m w = Ok (a, w1) /\ k a w1 = Ok r.
Proof.
  unfold bind. destruct (m w) as [[a w1]|e]; [|discriminate].
  intros H. now exists a, w1.
Qed.

Lemma lift_Ok {A} (r : result A) (w w' : world) (a : A) :
  lift r w = Ok (a, w') -> r = Ok a /\ w' = w.
Proof. unfold lift. destruct r; intros H; now inversion H. Qed.

Lemma ret_Ok {A} (a a' : A) (w w' : world) :
  ret a w = Ok (a', w') -> a' = a /\ w' = w.
Proof. unfold ret. intros H. now inversion H. Qed.

Lemma quiet_ret {A} (a : A) : quiet (ret a).
Proof. intros w a' w' H. apply ret_Ok in H. now destruct H as [_ ->]. Qed.

Lemma quiet_lift {A} (r : result A) : quiet (lift r).
Proof. intros w a w' H. apply lift_Ok in H. now destruct H as [_ ->]. Qed.

Lemma quiet_bind {A B} (m : M A) (k : A -> M B) :
  quiet m -> (forall a, quiet (k a)) -> quiet (bind m k).
Proof.
  intros Hm Hk w b0 w' H. apply bind_Ok in H.
  destruct H as (a & w1 & H1 & H2).
  rewrite (Hk _ _ _ _ H2). exact (Hm _ _ _ H1).
Qed.

Lemma quiet_on_file {A} (op : file_obj -> result (A * file_obj)) :
  quiet (on_file op).
Proof.
  intros w a w'. unfold on_file.
  destruct (op (file w)) as [[x f]|e]; intros H; now inversion H.
Qed.

Lemma quiet_find_file_pattern (pattern : bytes) (limit : option Z)
      (inclusive : bool) :
  quiet (find_file_pattern pattern limit inclusive).
Proof.
  intros w a w'. unfold find_file_pattern.
  destruct (partition _ _ _) as [[x y]|]; intros H; now inversion H.
Qed.

Lemma quiet_except_ValueError {A} (m handler : M A) :
  quiet m -> quiet handler -> quiet (except_ValueError m handler).
Proof.
  intros Hm Hh w a w'. unfold except_ValueError.
  destruct (m w) as [[x w1]|e] eqn:E.
  - intros H. inversion H; subst. exact (Hm _ _ _ E).
  - destruct e; try discriminate. apply Hh.
Qed.

Lemma quiet_name : quiet (fun w => Ok (name (file w), w)).
Proof. intros w a w' H. now inversion H. Qed.

Ltac quiet_step :=
  cbv zeta;
  first [ apply quiet_ret | apply quiet_lift | apply quiet_on_file
        | apply quiet_name | apply quiet_find_file_pattern
        | apply quiet_except_ValueError
        | apply quiet_bind; [|intro] ].

Ltac quiet_tac := unfold read, seek, tell, peek; repeat quiet_step.

Lemma quiet_BinaryBlock_load (length : Z) : quiet (BinaryBlock.load length).
Proof. unfold BinaryBlock.load. quiet_tac. Qed.

Lemma quiet_BlockWithPayload_load (length : Z) (cls : field_cls) :
  quiet (BlockWithPayload.load length cls).
Proof. unfold BlockWithPayload.load. quiet_tac. Qed.

Lemma quiet_load_block (preserve_block : bool) (content_type : pyval)
      (block_length : Z) :
  quiet (Record.load_block preserve_block content_type block_length).
Proof.
  pose proof quiet_BinaryBlock_load. pose proof quiet_BlockWithPayload_load.
  unfold Record.load_block.
  repeat match goal with
         | |- quiet (if ?c then _ else _) => destruct c
         end; quiet_tac; auto.
Qed.

(** ** BlockWithPayload.load *)

Lemma partition_absent (sub s : bytes) :
  bytes_contains sub s = false -> partition Byte.eqb sub s = None.
Proof.
  induction s as [|x s IH]; intros H; simpl in H;
    apply orb_false_iff in H; destruct H as [Hs H].
  - unfold bytes_startswith in Hs. simpl. now rewrite Hs.
  - unfold bytes_startswith in Hs. cbn [partition].
    now rewrite Hs, (IH H).
Qed.

(** C9, as it stands, fails: the three octets abc hold no delimiter, so
    the whole window is handed to the field parser.  [Fields.parse] rejects
    a line without a colon and [HTTPHeaders.parse] a text without a status
    line terminator; a window that is not UTF-8 is rejected by the decoder.
    Each error leaves [load]. *)
Lemma BlockWithPayload_load_raises_without_colon :
  let w := mkworld (mkfile (u "a.warc") (b "abc") 0) [] in
  let w' := mkworld (mkfile (u "a.warc") [Byte.xff] 0) [] in
  bytes_contains FIELD_DELIM_BYTES (firstn 3 (remaining (file w))) = false /\
  BlockWithPayload.load 3 cls_Fields w = Raise ValueError /\
  BlockWithPayload.load 3 cls_HTTPHeaders w = Raise ValueError /\
  bytes_contains FIELD_DELIM_BYTES (firstn 1 (remaining (file w'))) = false /\
  BlockWithPayload.load 1 cls_Fields w' = Raise UnicodeDecodeError.
Proof. repeat split; reflexivity. Qed.

(** C9, amended: when no delimiter occurs in the window of the declared,
    non-negative length, [load] hands the whole window to the decoder and
    the field parser.  An error of either leaves [load]; otherwise [load]
    returns the fields parsed from the whole window together with a payload
    of length zero that starts where the window ends, and leaves the cursor
    there. *)
Theorem BlockWithPayload_load_without_delimiter
        (length : Z) (cls : field_cls) (w : world) :
  (0 <= length)%Z ->
  bytes_contains FIELD_DELIM_BYTES
                 (firstn (Z.to_nat length) (remaining (file w))) = false ->
  BlockWithPayload.load length cls w
  = let window := firstn (Z.to_nat length) (remaining (file w)) in
    let window_end := pos (file w) + List.length window in
    match decode window with
    | Raise e => Raise e
    | Ok text =>
      match field_cls_parse cls text with
      | Raise e => Raise e
      | Ok fields =>
        Ok (BlockWithPayload.mk
              fields
              (BinaryFileRef.mk (Some (name (file w)))
                                (Some (Z.of_nat window_end)) (Some 0%Z)),
            mkworld (mkfile (name (file w)) (content (file w)) window_end)
                    (warnings w))
      end
    end.
Proof.
  intros Hlen Habsent. cbv zeta.
  unfold BlockWithPayload.load, bind at 1, except_ValueError,
    find_file_pattern.
  rewrite (partition_absent _ _ Habsent). unfold ret at 1.
  unfold bind at 1, read, on_file, file_read.
  replace (length <? -1)%Z with false by (symmetry; apply Z.ltb_ge; lia).
  replace (length =? -1)%Z with false by (symmetry; apply Z.eqb_neq; lia).
  cbn [file warnings].
  set (window := firstn (Z.to_nat length) (remaining (file w))).
  unfold bind at 1, lift at 1.
  destruct (decode window) as [text|e]; [|reflexivity].
  unfold bind at 1, lift at 1.
  destruct (field_cls_parse cls text) as [fields|e]; [|reflexivity].
  unfold bind, tell, seek, on_file, file_tell, file_seek, ret,
    BinaryFileRef.set_source_file.
  cbn [file warnings pos name content].
  rewrite Z.sub_diag, Z.add_0_r.
  replace (Z.of_nat (pos (file w) + List.length window) <? 0)%Z with false
    by (symmetry; apply Z.ltb_ge; lia).
  now rewrite Nat2Z.id.
Qed.

Lemma BlockWithPayload_load_without_delimiter_witness :
  BlockWithPayload.load
    6 cls_Fields
    (mkworld (mkfile (u "a.warc")
                     (b "k: v" ++ NEWLINE_BYTES ++ b "next") 0) [])
  = Ok (BlockWithPayload.mk
          (FieldsObj [(u "k", PStr (u "v"))])
          (BinaryFileRef.mk (Some (u "a.warc")) (Some 6%Z) (Some 0%Z)),
        mkworld (mkfile (u "a.warc")
                        (b "k: v" ++ NEWLINE_BYTES ++ b "next") 6) []).
Proof.
  apply (BlockWithPayload_load_without_delimiter
           6 cls_Fields
           (mkworld (mkfile (u "a.warc")
                            (b "k: v" ++ NEWLINE_BYTES ++ b "next") 0) [])).
  - lia.
  - reflexivity.
Defined.

(** ** WARC.read_record *)

(** C1: after a record has been loaded, [read_record] reads the next four
    octets (fewer only at the end of the file).  It raises, and then the
    'Blocks not separated correctly' error at the cursor reached, exactly
    when they are not the doubled line terminator.  When they are, it
    returns the record with a flag that is false exactly when a peek of
    one octet, which leaves the cursor alone, comes back empty. *)
Theorem read_record_checks_delimiter
        (preserve_block : bool) (w w1 : world) (record : Record.t) :
  Record.load preserve_block w = Ok (record, w1) ->
  let data := firstn 4 (remaining (file w1)) in
  let w2 := mkworld (mkfile (name (file w1)) (content (file w1))
                            (pos (file w1) + length data))
                    (warnings w1) in
  let ahead := firstn 1 (remaining (file w2)) in
  read (len_Z FIELD_DELIM_BYTES) w1 = Ok (data, w2) /\
  ((exists e, WARC.read_record preserve_block w = Raise e)
   <-> data <> FIELD_DELIM_BYTES) /\
  (data <> FIELD_DELIM_BYTES ->
   WARC.read_record preserve_block w
   = Raise (IOError_BlocksNotSeparated (Z.of_nat (pos (file w2))))) /\
  (data = FIELD_DELIM_BYTES ->
   peek 1 w2 = Ok (ahead, w2) /\
   WARC.read_record preserve_block w
   = Ok ((record, negb (bytes_eqb ahead [])), w2)).
Proof.
  intros Hload data w2 ahead.
  assert (Hread : read (len_Z FIELD_DELIM_BYTES) w1 = Ok (data, w2))
    by reflexivity.
  assert (Hpeek : peek 1 w2 = Ok (ahead, w2)) by reflexivity.
  assert (Hbad : data <> FIELD_DELIM_BYTES ->
                 WARC.read_record preserve_block w
                 = Raise (IOError_BlocksNotSeparated
                            (Z.of_nat (pos (file w2))))).
  { intros Hne. unfold WARC.read_record, bind at 1. rewrite Hload.
    unfold bind at 1. rewrite Hread.
    apply bytes_eqb_neq in Hne. rewrite Hne. reflexivity. }
  assert (Hgood : data = FIELD_DELIM_BYTES ->
                  WARC.read_record preserve_block w
                  = Ok ((record, negb (bytes_eqb ahead [])), w2)).
  { intros Heq. unfold WARC.read_record, bind at 1. rewrite Hload.
    unfold bind at 1. rewrite Hread.
    apply bytes_eqb_eq in Heq. rewrite Heq. cbn [negb].
    unfold bind. rewrite Hpeek.
    destruct (bytes_eqb ahead []); reflexivity. }
  repeat split; auto.
  - intros [e He] Heq. rewrite (Hgood Heq) in He. discriminate.
  - intros Hne. eexists. exact (Hbad Hne).
Qed.

Lemma read_record_checks_delimiter_witness :
  exists record w1,
    Record.load false two_records = Ok (record, w1) /\
    exists w2,
      WARC.read_record false two_records = Ok ((record, true), w2) /\
      pos (file w2) = 56.
Proof.
  destruct (Record.load false two_records) as [[record w1]|e] eqn:Hload.
  - exists record, w1. split; [reflexivity|].
    pose proof (read_record_checks_delimiter false two_records w1 record
                                             Hload) as H.
    vm_compute in Hload. injection Hload as <- <-.
    destruct H as (_ & _ & _ & Hgood).
    destruct (Hgood eq_refl) as [_ Hrec].
    eexists. split; [exact Hrec | reflexivity].
  - vm_compute in Hload. discriminate.
Defined.

(** ** Record.load *)

Lemma pyval_eqb_eq (x y : pyval) : pyval_eqb x y = true <-> x = y.
Proof.
  destruct x, y; simpl; split; try congruence; try discriminate.
  - intros H. apply str_eqb_eq in H. now subst.
  - intros H. apply str_eqb_eq. congruence.
  - intros H. apply Z.eqb_eq in H. now subst.
  - intros H. apply Z.eqb_eq. congruence.
Qed.

(** The steps of a successful [Record.load], in order. *)
Lemma load_steps (preserve_block : bool) (w w' : world) (record : Record.t) :
  Record.load preserve_block w = Ok (record, w') ->
  exists header_length data w1 parsed block_length content_type block w2
         new_content_length,
    let offset := Some (Z.of_nat (pos (file w))) in
    find_file_pattern FIELD_DELIM_BYTES None true w = Ok (header_length, w) /\
    read header_length w = Ok (data, w1) /\
    Header.parse data = Ok parsed /\
    Record.content_length (Record.mk parsed None offset) = Ok block_length /\
    Fields.get (Header.fields parsed) (u "content-type") PNone
    = Ok content_type /\
    Record.load_block preserve_block content_type block_length w1
    = Ok (block, w2) /\
    content_block_length block = Ok new_content_length /\
    ((new_content_length = PInt block_length /\
      record = Record.mk parsed (Some block) offset /\ w' = w2)
     \/
     (new_content_length <> PInt block_length /\
      Record.set_content_length (Record.mk parsed (Some block) offset)
                                new_content_length = Ok record /\
      w' = mkworld (file w2)
                   (warnings w2
                    ++ [Warn_length_changed block_length
                                            new_content_length]))).
Proof.
  intros H. unfold Record.load in H.
  apply bind_Ok in H. destruct H as (offset & w0 & Htell & H).
  unfold tell, on_file, file_tell in Htell. injection Htell as <- <-.
  replace (mkworld (file w) (warnings w)) with w in H by now destruct w.
  apply bind_Ok in H. destruct H as (header_length & w0 & Hfind & H).
  assert (w0 = w) as ->.
  { unfold find_file_pattern in Hfind.
    destruct (partition _ _ _) as [[? ?]|]; now inversion Hfind. }
  apply bind_Ok in H. destruct H as (data & w1 & Hread & H).
  apply bind_Ok in H. destruct H as (parsed & w0 & Hparse & H).
  apply lift_Ok in Hparse. destruct Hparse as [Hparse ->].
  apply bind_Ok in H. destruct H as (block_length & w0 & Hlen & H).
  apply lift_Ok in Hlen. destruct Hlen as [Hlen ->].
  apply bind_Ok in H. destruct H as (content_type & w0 & Htype & H).
  apply lift_Ok in Htype. destruct Htype as [Htype ->].
  apply bind_Ok in H. destruct H as (block & w2 & Hblock & H).
  apply bind_Ok in H. destruct H as (new_content_length & w0 & Hnew & H).
  apply lift_Ok in Hnew. destruct Hnew as [Hnew ->].
  exists header_length, data, w1, parsed, block_length, content_type, block,
    w2, new_content_length.
  cbv zeta. repeat (split; [assumption|]).
  destruct (pyval_eqb (PInt block_length) new_content_length) eqn:Heq;
    cbn [negb] in H.
  - left. apply pyval_eqb_eq in Heq. apply ret_Ok in H.
    destruct H as [-> ->]. auto.
  - right.
    apply bind_Ok in H. destruct H as (old & w0 & Hold & H).
    apply lift_Ok in Hold. destruct Hold as [Hold ->].
    apply bind_Ok in H. destruct H as ([] & w3 & Hwarn & H).
    unfold warn in Hwarn. injection Hwarn as <-.
    apply lift_Ok in H. destruct H as [Hset ->].
    assert (old = block_length) as ->.
    { unfold Record.content_length in Hold, Hlen. cbn in Hold, Hlen.
      congruence. }
    repeat split; auto.
    intros ->. rewrite (proj2 (pyval_eqb_eq _ _) eq_refl) in Heq.
    discriminate.
Qed.

Lemma getitem_setitem_same (self self' : Fields.t) (name : str)
      (value : pyval) :
  Fields.setitem self name value = Ok self' ->
  Fields.getitem self' name = Ok value.
Proof.
  destruct (setitem_shape self name value)
    as (pre & post & Hset & Hpre & _).
  rewrite Hset. intros H. injection H as <-.
  rewrite getitem_skip by assumption.
  simpl. now rewrite same_name_refl.
Qed.

Lemma getitem_without (name : str) (x : str * pyval) (pre post : Fields.t) :
  Fields.same_name (fst x) name = false ->
  Fields.getitem (pre ++ x :: post) name = Fields.getitem (pre ++ post) name.
Proof.
  intros Hx. induction pre as [|[k v] pre IH]; simpl.
  - destruct x as [k v]. simpl in Hx. now rewrite Hx.
  - now rewrite IH.
Qed.

Lemma getitem_delitem_other (self : Fields.t) (name name' : str) :
  Fields.same_name name name' = false ->
  Fields.getitem (Fields.delitem self name) name' = Fields.getitem self name'.
Proof.
  intros Hn. induction self as [|[k v] self IH]; [reflexivity|].
  cbn [Fields.delitem filter fst]. fold (Fields.delitem self name).
  destruct (Fields.same_name k name) eqn:Hk; cbn [negb].
  - rewrite IH. simpl.
    replace (Fields.same_name k name') with false; [reflexivity|].
    apply same_name_lower in Hk. unfold Fields.same_name in *.
    now rewrite Hk.
  - simpl. now rewrite IH.
Qed.

Lemma getitem_setitem_other (self self' : Fields.t) (name name' : str)
      (value : pyval) :
  Fields.setitem self name value = Ok self' ->
  Fields.same_name name name' = false ->
  Fields.getitem self' name' = Fields.getitem self name'.
Proof.
  destruct (setitem_shape self name value)
    as (pre & post & Hset & _ & _ & Hdel & _).
  rewrite Hset. intros H Hn. injection H as <-.
  rewrite getitem_without by exact Hn.
  rewrite <- Hdel. now apply getitem_delitem_other.
Qed.

Lemma content_block_length_shape (block : ContentBlock) (v : pyval) :
  content_block_length block = Ok v -> v = PNone \/ exists n, v = PInt n.
Proof.
  destruct block as [blk|blk]; simpl.
  - intros H. injection H as <-.
    destruct (BinaryFileRef.length blk); simpl; eauto.
  - unfold BlockWithPayload.length.
    destruct (fields_obj_bytes _); cbn [rbind]; [|discriminate].
    destruct (BinaryFileRef.length _); [|discriminate].
    intros H. injection H as <-. eauto.
Qed.

(** C2: a record that [Record.load] returns holds a content block whose
    recomputed length (for a block with payload the octets of the
    serialized fields, the two octets of one terminator and the payload
    length; for a binary block its bound length) is what its Content-Length
    reads.  When the length declared in the parsed header differs, one
    warning was logged and the header is the parsed one with Content-Length
    set to the recomputed length; when it agrees, nothing was logged and
    the header is the parsed one. *)
Theorem load_reconciles_content_length
        (preserve_block : bool) (w w' : world) (record : Record.t) :
  Record.load preserve_block w = Ok (record, w') ->
  exists header_length data w1 parsed declared block recomputed,
    find_file_pattern FIELD_DELIM_BYTES None true w = Ok (header_length, w) /\
    read header_length w = Ok (data, w1) /\
    Header.parse data = Ok parsed /\
    Record.content_length
      (Record.mk parsed None (Record.file_offset record)) = Ok declared /\
    Record.content_block record = Some block /\
    content_block_length block = Ok (PInt recomputed) /\
    match block with
    | BinaryBlock_ blk => BinaryFileRef.length blk = Some recomputed
    | BlockWithPayload_ blk =>
      exists octets payload_length,
        fields_obj_bytes (BlockWithPayload.fields blk) = Ok octets /\
        BinaryFileRef.length (BlockWithPayload.payload blk)
        = Some payload_length /\
        recomputed = (len_Z octets + 2 + payload_length)%Z
    end /\
    Record.content_length record = Ok recomputed /\
    Fields.getitem (Header.fields (Record.header record)) (u "Content-Length")
    = (if (declared =? recomputed)%Z
       then Fields.getitem (Header.fields parsed) (u "Content-Length")
       else Ok (PInt recomputed)) /\
    (declared <> recomputed ->
     warnings w'
     = warnings w ++ [Warn_length_changed declared (PInt recomputed)] /\
     Fields.setitem (Header.fields parsed) (u "Content-Length")
                    (PInt recomputed)
     = Ok (Header.fields (Record.header record)) /\
     Header.version (Record.header record) = Header.version parsed) /\
    (declared = recomputed ->
     warnings w' = warnings w /\ Record.header record = parsed).
Proof.
  intros H. apply load_steps in H.
  destruct H as (header_length & data & w1 & parsed & declared & content_type
                 & block & w2 & new_len & Hfind & Hread & Hparse & Hdecl
                 & Htype & Hblock & Hnew & Hcases).
  assert (Hw1 : warnings w1 = warnings w).
  { revert Hread. unfold read. apply quiet_on_file. }
  assert (Hw2 : warnings w2 = warnings w).
  { rewrite <- Hw1. revert Hblock. apply quiet_load_block. }
  assert (Hshape : forall n, new_len = PInt n ->
            match block with
            | BinaryBlock_ blk => BinaryFileRef.length blk = Some n
            | BlockWithPayload_ blk =>
              exists octets payload_length,
                fields_obj_bytes (BlockWithPayload.fields blk) = Ok octets /\
                BinaryFileRef.length (BlockWithPayload.payload blk)
                = Some payload_length /\
                n = (len_Z octets + 2 + payload_length)%Z
            end).
  { intros n ->. destruct block as [blk|blk]; simpl in Hnew.
    - destruct (BinaryFileRef.length blk); simpl in Hnew; congruence.
    - unfold BlockWithPayload.length in Hnew.
      destruct (fields_obj_bytes _) as [octets|]; cbn [rbind] in Hnew;
        [|discriminate].
      destruct (BinaryFileRef.length _) as [n'|]; [|discriminate].
      injection Hnew as <-. now exists octets, n'. }
  exists header_length, data, w1, parsed, declared, block.
  destruct Hcases as [(-> & -> & ->) | (Hne & Hset & ->)].
  - exists declared. cbn [Record.file_offset Record.content_block
                          Record.header].
    rewrite Z.eqb_refl.
    repeat (split; [first [assumption | reflexivity | now apply Hshape]|]).
    split; [intros Hne; now destruct Hne | auto].
  - unfold Record.set_content_length in Hset.
    destruct (int_of new_len) as [n|] eqn:Hint; cbn [rbind] in Hset;
      [|discriminate].
    destruct (content_block_length_shape _ _ Hnew) as [-> | [n' ->]];
      [discriminate|].
    injection Hint as ->.
    destruct (Fields.setitem _ _ _) as [fields|] eqn:Hfields;
      cbn [rbind] in Hset; [|discriminate].
    injection Hset as <-.
    cbn [Record.header Record.content_block Record.file_offset
         Header.fields Header.version] in *.
    assert (Hd : declared <> n) by congruence.
    exists n. rewrite (proj2 (Z.eqb_neq _ _) Hd).
    pose proof (getitem_setitem_same _ _ _ _ Hfields) as Hget.
    repeat (split; [first [assumption | reflexivity | now apply Hshape]|]).
    split; [|split; [exact Hget|split]].
    + unfold Record.content_length. cbn [Record.header Header.fields].
      now rewrite Hget.
    + intros _. split; [now rewrite Hw2 | auto].
    + intros Heq. now destruct Hd.
Qed.

Lemma BlockWithPayload_load_cls (length : Z) (cls : field_cls)
      (w w' : world) (blk : BlockWithPayload.t) :
  BlockWithPayload.load length cls w = Ok (blk, w') ->
  exists text, field_cls_parse cls text = Ok (BlockWithPayload.fields blk).
Proof.
  intros H. unfold BlockWithPayload.load in H.
  apply bind_Ok in H. destruct H as (field_length & w1 & _ & H).
  apply bind_Ok in H. destruct H as (data & w2 & _ & H).
  apply bind_Ok in H. destruct H as (text & w3 & _ & H).
  apply bind_Ok in H. destruct H as (fields & w4 & Hfields & H).
  apply lift_Ok in Hfields. destruct Hfields as [Hfields _].
  apply bind_Ok in H. destruct H as (offset & w5 & _ & H).
  apply bind_Ok in H. destruct H as (f & w6 & _ & H).
  apply bind_Ok in H. destruct H as (here & w7 & _ & H).
  apply bind_Ok in H. destruct H as (? & w8 & _ & H).
  apply ret_Ok in H. destruct H as [-> _].
  now exists text.
Qed.

Lemma load_block_kind (preserve_block : bool) (content_type : pyval)
      (block_length : Z) (w w' : world) (block : ContentBlock) :
  Record.load_block preserve_block content_type block_length w
  = Ok (block, w') ->
  kind_of block = dispatch_spec preserve_block content_type.
Proof.
  assert (Hbin : forall m : M BinaryBlock.t,
             bind m (fun blk => ret (BinaryBlock_ blk)) w = Ok (block, w') ->
             kind_of block = Binary).
  { intros m H. apply bind_Ok in H. destruct H as (blk & w1 & _ & H).
    apply ret_Ok in H. now destruct H as [-> _]. }
  assert (Hpay : forall cls,
             bind (BlockWithPayload.load block_length cls)
                  (fun blk => ret (BlockWithPayload_ blk)) w
             = Ok (block, w') ->
             kind_of block = match cls with
                             | cls_Fields => WithFields
                             | cls_HTTPHeaders => WithHTTPHeaders
                             end).
  { intros cls H. apply bind_Ok in H. destruct H as (blk & w1 & Hload & H).
    apply ret_Ok in H. destruct H as [-> _].
    apply BlockWithPayload_load_cls in Hload. destruct Hload as [text Hp].
    unfold kind_of. cbn [BlockWithPayload.fields].
    destruct cls; cbn [field_cls_parse] in Hp.
    - destruct (Fields.parse text NEWLINE); cbn [rbind] in Hp;
        [|discriminate].
      injection Hp as <-. reflexivity.
    - destruct (HTTPHeaders.parse text NEWLINE); cbn [rbind] in Hp;
        [|discriminate].
      injection Hp as <-. reflexivity. }
  unfold Record.load_block, dispatch_spec.
  destruct preserve_block; cbn [negb andb]; [apply Hbin|].
  destruct content_type as [|s|i]; cbn [pyval_eqb]; try apply Hbin.
  destruct (str_startswith s (u "application/http")) eqn:Hs.
  - replace (str_eqb s []) with false; [apply Hpay|].
    symmetry. apply str_eqb_neq. intros ->. discriminate.
  - rewrite andb_false_r.
    destruct (str_eqb s (u "application/warc-fields"));
      [apply Hpay | apply Hbin].
Qed.

(** C3: the content block of a record that [Record.load] returns is the
    one the specification's dispatch names for the preservation flag and
    the content type found in the record's header: a binary block under
    preservation whatever the content type; otherwise a block with payload
    and HTTP headers for a content type that starts with application/http,
    one with plain fields for exactly application/warc-fields, and a binary
    block in every other case, an absent content type included. *)
Theorem load_dispatches_on_content_type
        (preserve_block : bool) (w w' : world) (record : Record.t) :
  Record.load preserve_block w = Ok (record, w') ->
  exists block content_type,
    Record.content_block record = Some block /\
    Fields.get (Header.fields (Record.header record)) (u "content-type") PNone
    = Ok content_type /\
    kind_of block = dispatch_spec preserve_block content_type /\
    (preserve_block = true -> exists blk, block = BinaryBlock_ blk).
Proof.
  intros H. apply load_steps in H.
  destruct H as (header_length & data & w1 & parsed & declared & content_type
                 & block & w2 & new_len & Hfind & Hread & Hparse & Hdecl
                 & Htype & Hblock & Hnew & Hcases).
  pose proof (load_block_kind _ _ _ _ _ _ Hblock) as Hkind.
  assert (Hpres : preserve_block = true -> exists blk, block = BinaryBlock_ blk).
  { intros ->. unfold dispatch_spec in Hkind.
    destruct block as [blk|blk]; [now exists blk|].
    unfold kind_of in Hkind. destruct (BlockWithPayload.fields blk);
      discriminate. }
  exists block, content_type.
  destruct Hcases as [(_ & -> & _) | (_ & Hset & _)].
  - repeat split; auto.
  - unfold Record.set_content_length in Hset.
    destruct (int_of new_len) as [n|]; cbn [rbind] in Hset; [|discriminate].
    destruct (Fields.setitem _ _ _) as [fields|] eqn:Hfields;
      cbn [rbind] in Hset; [|discriminate].
    injection Hset as <-.
    cbn [Record.header Record.content_block Header.fields] in *.
    repeat split; auto.
    unfold Fields.get in *.
    now rewrite (getitem_setitem_other _ _ _ (u "content-type") _ Hfields).
Qed.

Lemma load_reconciles_content_length_witness :
  exists record w',
    Record.load false padded_fields = Ok (record, w') /\
    Record.content_length record = Ok 21%Z.
Proof.
  destruct (Record.load false padded_fields) as [[record w']|e] eqn:Hload.
  - exists record, w'. split; [reflexivity|].
    pose proof (load_reconciles_content_length false padded_fields w' record
                                               Hload) as H.
    vm_compute in Hload. injection Hload as <- <-.
    destruct H as (header_length & data & w1 & parsed & declared & block
                   & recomputed & _ & _ & _ & _ & Hblock & Hnew & _ & Hlen
                   & _).
    vm_compute in Hblock. injection Hblock as <-.
    vm_compute in Hnew.
    assert (recomputed = 21%Z) as -> by congruence.
    exact Hlen.
  - vm_compute in Hload. discriminate.
Defined.

Lemma load_dispatches_on_content_type_witness :
  exists record w',
    Record.load false http_response = Ok (record, w') /\
    exists block,
      Record.content_block record = Some block /\
      kind_of block = WithHTTPHeaders.
Proof.
  destruct (Record.load false http_response) as [[record w']|e] eqn:Hload.
  - exists record, w'. split; [reflexivity|].
    pose proof (load_dispatches_on_content_type false http_response w' record
                                                Hload) as H.
    vm_compute in Hload. injection Hload as <- <-.
    destruct H as (block & content_type & Hblock & Htype & Hkind & _).
    vm_compute in Htype. injection Htype as <-.
    exists block. split; [exact Hblock | exact Hkind].
  - vm_compute in Hload. discriminate.
Defined.

(** * Further properties *)

(** ** Field lists: deletion, addition, membership *)

Lemma index_from_others (name : str) (self : Fields.t) : forall base,
  Forall (fun x => Fields.same_name (fst x) name = false) self ->
  Fields.index_from base self name = Raise (KeyError name).
Proof.
  induction self as [|[k v] self IH]; intros base H; [reflexivity|].
  inversion H as [|? ? Hk Hrest]; subst. simpl in Hk |- *.
  rewrite Hk. now apply IH.
Qed.

Lemma index_from_found (name : str) (pre post : Fields.t) (k : str)
      (v : pyval) : forall base,
  Forall (fun x => Fields.same_name (fst x) name = false) pre ->
  Fields.same_name k name = true ->
  Fields.index_from base (pre ++ (k, v) :: post) name
  = Ok (base + length pre).
Proof.
  induction pre as [|[k' v'] pre IH]; intros base H Hk; simpl.
  - rewrite Hk. f_equal. lia.
  - inversion H as [|? ? Hk' Hrest]; subst. simpl in Hk'. rewrite Hk'.
    rewrite IH by assumption. f_equal. lia.
Qed.

Lemma get_list_others (name : str) (self : Fields.t) :
  Forall (fun x => Fields.same_name (fst x) name = false) self ->
  Fields.get_list self name = [].
Proof.
  induction 1 as [|x self Hx _ IH]; [reflexivity|].
  unfold Fields.get_list in *. simpl. now rewrite Hx.
Qed.

Lemma get_list_app (name : str) (l l' : Fields.t) :
  Fields.get_list (l ++ l') name
  = Fields.get_list l name ++ Fields.get_list l' name.
Proof. unfold Fields.get_list. apply filter_app. Qed.

Lemma count_delitem_length (name : str) (self : Fields.t) :
  length (Fields.delitem self name) + Fields.count self name = length self.
Proof.
  unfold Fields.delitem, Fields.count, Fields.get_list.
  induction self as [|x self IH]; [reflexivity|]. simpl.
  destruct (Fields.same_name (fst x) name); simpl; lia.
Qed.


Lemma same_name_false (name other : str) :
  lower other <> lower name -> Fields.same_name name other = false.
Proof.
  intros H. destruct (Fields.same_name name other) eqn:E; [|reflexivity].
  apply same_name_lower in E. congruence.
Qed.

Lemma others_same_lower (name n2 : str) (l : Fields.t) :
  lower n2 = lower name ->
  Forall (fun x => Fields.same_name (fst x) name = false) l ->
  Forall (fun x => Fields.same_name (fst x) n2 = false) l.
Proof.
  intros Hn. apply Forall_impl. intros x.
  now rewrite (same_name_trans_l (fst x) _ _ Hn).
Qed.


(** X2: [add] appends and never replaces: the name has one more field,
    listed last; a lookup of the name still answers the value of its first
    field if it had one, and the new value otherwise; other names are
    looked up as before. *)
Theorem add_appends_without_replacing
        (self : Fields.t) (name : str) (value : pyval) :
  let self' := Fields.add self name value in
  length self' = S (length self) /\
  Fields.get_list self' name = Fields.get_list self name ++ [(name, value)] /\
  Fields.count self' name = S (Fields.count self name) /\
  Fields.getitem self' name
  = match Fields.index self name with
    | Ok _ => Fields.getitem self name
    | Raise _ => Ok value
    end /\
  (forall other, lower other <> lower name ->
                 Fields.getitem self' other = Fields.getitem self other).
Proof.
  cbv zeta. unfold Fields.add.
  assert (Hlist : Fields.get_list (self ++ [(name, value)]) name
                  = Fields.get_list self name ++ [(name, value)]).
  { rewrite get_list_app. f_equal. unfold Fields.get_list. simpl.
    now rewrite same_name_refl. }
  repeat split.
  - rewrite length_app. simpl. lia.
  - exact Hlist.
  - unfold Fields.count. rewrite Hlist, length_app. simpl. lia.
  - unfold Fields.index.
    destruct (Fields.index_from 0 self name) as [i|e] eqn:Hi.
    + destruct (index_from_split _ _ _ _ Hi)
        as (pre & k & v & post & -> & _ & Hk & Hpre).
      rewrite <- app_assoc. rewrite getitem_skip by assumption.
      rewrite (getitem_skip name pre ((k, v) :: post)) by assumption.
      cbn [app Fields.getitem]. now rewrite Hk.
    + apply index_from_absent in Hi. rewrite getitem_skip by assumption.
      cbn [Fields.getitem]. now rewrite same_name_refl.
  - intros other Hn. apply same_name_false in Hn.
    replace self with (self ++ []) at 2 by apply app_nil_r.
    now apply getitem_without.
Qed.

Lemma getitem_get_list (name : str) (self : Fields.t) :
  Fields.getitem self name
  = Ok match Fields.get_list self name with
       | [] => PNone
       | (_, v) :: _ => v
       end.
Proof.
  unfold Fields.get_list.
  induction self as [|[k v] self IH]; [reflexivity|]. simpl.
  now destruct (Fields.same_name k name).
Qed.

(** X3: [name in self] tests the value of the first field bearing the
    name against [None], not the presence of the name: it is false for a
    name without field, and also for a name whose first field holds
    [None], such as one just added with that value to a list that did not
    have it. *)
Theorem contains_tests_first_value (self : Fields.t) (name : str) :
  Fields.contains self name
  = Ok match Fields.get_list self name with
       | [] => false
       | (_, v) :: _ => negb (pyval_eqb v PNone)
       end /\
  (Fields.count self name = 0 ->
   Fields.contains (Fields.add self name PNone) name = Ok false /\
   Fields.count (Fields.add self name PNone) name = 1).
Proof.
  assert (H : forall l : Fields.t,
             Fields.contains l name
             = Ok match Fields.get_list l name with
                  | [] => false
                  | (_, v) :: _ => negb (pyval_eqb v PNone)
                  end).
  { intros l. unfold Fields.contains. rewrite getitem_get_list.
    cbn [rbind]. now destruct (Fields.get_list l name) as [|[k v] rest]. }
  split; [apply H|]. intros Hc. rewrite H.
  unfold Fields.count, Fields.add in *. rewrite get_list_app.
  apply length_zero_iff_nil in Hc. rewrite Hc.
  unfold Fields.get_list. simpl. rewrite same_name_refl. now split.
Qed.

(** X4: [getitem], [get_list], [count] and [index] agree: a lookup answers
    the value of the first pair that [get_list] lists; [index] raises
    [KeyError] exactly when [count] is zero, and otherwise answers a
    position of the list, before which no field bears the name and at
    which one does. *)
Theorem lookups_agree (self : Fields.t) (name : str) :
  Fields.getitem self name
  = Ok match Fields.get_list self name with
       | [] => PNone
       | (_, v) :: _ => v
       end /\
  (Fields.index self name = Raise (KeyError name)
   <-> Fields.count self name = 0) /\
  (forall i, Fields.index self name = Ok i ->
             0 < Fields.count self name /\
             (exists k v, nth_error self i = Some (k, v) /\
                          lower k = lower name /\
                          Fields.getitem self name = Ok v) /\
             Fields.get_list (firstn i self) name = []).
Proof.
  split; [apply getitem_get_list|]. unfold Fields.index, Fields.count.
  split; [split|].
  - intros H. apply index_from_absent in H. now rewrite get_list_others.
  - intros H. apply length_zero_iff_nil in H.
    apply index_from_others. apply Forall_forall. intros x Hx.
    destruct (Fields.same_name (fst x) name) eqn:E; [|reflexivity].
    assert (Hin : In x (Fields.get_list self name))
      by (apply filter_In; now split).
    rewrite H in Hin. destruct Hin.
  - intros i Hi.
    destruct (index_from_split _ _ _ _ Hi)
      as (pre & k & v & post & -> & -> & Hk & Hpre).
    simpl. repeat split.
    + rewrite get_list_app, length_app. unfold Fields.get_list at 2.
      simpl. rewrite Hk. simpl. lia.
    + exists k, v. rewrite nth_error_app2, Nat.sub_diag by lia.
      repeat split.
      * now apply same_name_lower.
      * rewrite getitem_skip by assumption. simpl. now rewrite Hk.
    + rewrite firstn_app, Nat.sub_diag, firstn_all. simpl.
      rewrite app_nil_r. now apply get_list_others.
Qed.

(** ** Field lists: assignment *)

(** The two ways of [__setitem__], for every spelling of the name. *)
Lemma setitem_cases (self : Fields.t) (name : str) :
  (exists pre k v post,
      self = pre ++ (k, v) :: post /\
      Fields.same_name k name = true /\
      Forall (fun x => Fields.same_name (fst x) name = false) pre /\
      forall n2 value,
        lower n2 = lower name ->
        Fields.setitem self n2 value
        = Ok (pre ++ (n2, value) :: Fields.delitem post name))
  \/
  (Forall (fun x => Fields.same_name (fst x) name = false) self /\
   forall n2 value,
     lower n2 = lower name ->
     Fields.setitem self n2 value = Ok (self ++ [(n2, value)])).
Proof.
  destruct (Fields.index self name) as [i|e] eqn:Hi.
  - left. destruct (index_from_split _ _ _ _ Hi)
      as (pre & k & v & post & -> & -> & Hk & Hpre).
    exists pre, k, v, post. repeat split; auto.
    intros n2 value Hn. unfold Fields.setitem, Fields.index.
    pose proof (others_same_lower _ _ _ Hn Hpre) as Hpre2.
    rewrite index_from_found;
      [|assumption | now rewrite (same_name_trans_l k _ _ Hn)].
    f_equal. simpl.
    replace (Fields.delitem (pre ++ (k, v) :: post) n2)
      with (pre ++ Fields.delitem post name).
    + apply list_insert_app.
    + unfold Fields.delitem. rewrite filter_app. simpl.
      rewrite (same_name_trans_l k _ _ Hn), Hk. simpl.
      fold (Fields.delitem pre n2). rewrite delitem_fixed by assumption.
      f_equal. apply filter_ext. intros x.
      now rewrite (same_name_trans_l (fst x) _ _ Hn).
  - right. apply index_from_absent in Hi. split; [assumption|].
    intros n2 value Hn. unfold Fields.setitem, Fields.index.
    now rewrite index_from_others by (now apply (others_same_lower name)).
Qed.

(** X5: [self[name] = value] never fails and leaves exactly one field
    bearing the name, whether the name had none or several; the length of
    the list changes accordingly, and the fields of other names are kept
    as they were. *)
Theorem setitem_leaves_one_field
        (self : Fields.t) (name : str) (value : pyval) :
  exists self',
    Fields.setitem self name value = Ok self' /\
    Fields.get_list self' name = [(name, value)] /\
    Fields.count self' name = 1 /\
    length self' + Fields.count self name = S (length self) /\
    Fields.delitem self' name = Fields.delitem self name.
Proof.
  assert (Hone : forall pre post : Fields.t,
             Forall (fun x => Fields.same_name (fst x) name = false) pre ->
             Forall (fun x => Fields.same_name (fst x) name = false) post ->
             Fields.get_list (pre ++ (name, value) :: post) name
             = [(name, value)] /\
             Fields.delitem (pre ++ (name, value) :: post) name
             = pre ++ post).
  { intros pre post Hpre Hpost. split.
    - rewrite get_list_app, get_list_others by assumption.
      unfold Fields.get_list at 1. simpl. rewrite same_name_refl.
      fold (Fields.get_list post name). now rewrite get_list_others.
    - unfold Fields.delitem. rewrite filter_app. simpl.
      rewrite same_name_refl. simpl.
      fold (Fields.delitem pre name). fold (Fields.delitem post name).
      now rewrite !delitem_fixed. }
  pose proof (count_delitem_length name self) as Hlen.
  destruct (setitem_cases self name)
    as [(pre & k & v & post & -> & Hk & Hpre & Hset) | (Habs & Hset)].
  - exists (pre ++ (name, value) :: Fields.delitem post name).
    destruct (Hone pre (Fields.delitem post name) Hpre
                   (delitem_others name post)) as [Hl Hd].
    assert (Hdel : Fields.delitem (pre ++ (k, v) :: post) name
                   = pre ++ Fields.delitem post name).
    { unfold Fields.delitem at 1. rewrite filter_app. simpl. rewrite Hk.
      simpl. fold (Fields.delitem pre name). fold (Fields.delitem post name).
      now rewrite delitem_fixed. }
    rewrite Hdel in *.
    repeat split; auto.
    + unfold Fields.count. now rewrite Hl.
    + rewrite ?length_app in *. simpl in *. rewrite ?length_app in *. lia.
  - exists (self ++ [(name, value)]).
    destruct (Hone self [] Habs (Forall_nil _)) as [Hl Hd].
    rewrite delitem_fixed in Hlen by assumption.
    repeat split; auto.
    + unfold Fields.count. now rewrite Hl.
    + rewrite length_app. simpl. lia.
    + now rewrite Hd, app_nil_r, delitem_fixed.
Qed.




(** ** Parsing field lines *)

Lemma lines_text_app (lines lines' : list str) :
  concat (map (fun line => line ++ NEWLINE) (lines ++ lines'))
  = concat (map (fun line => line ++ NEWLINE) lines)
    ++ concat (map (fun line => line ++ NEWLINE) lines').
Proof. now rewrite map_app, concat_app. Qed.

Lemma parse_loop_blanks (blanks : list str) : forall fuel fields,
  Forall (fun line => line = []) blanks ->
  Fields.parse_loop fuel fields blanks = Ok fields.
Proof.
  induction blanks as [|line blanks IH]; intros fuel fields H.
  - apply parse_loop_done.
  - inversion H; subst. destruct fuel as [|fuel]; [reflexivity|].
    simpl. now apply IH.
Qed.

(** The loop of [parse] over the lines of a serialized list that is
    followed by empty lines only. *)
Lemma parse_loop_field_lines_blanks (blanks : list str)
      (pairs : list (str * str)) :
  Forall (fun line => line = []) blanks ->
  forall (fields : Fields.t) (fuel : nat),
    length pairs < fuel ->
    Forall (fun p => has_colon (fst p) = false /\
                     starts_space (snd p) = false) pairs ->
    Forall (fun p => starts_blank (fst p) = false) (tl pairs) ->
    Fields.parse_loop fuel fields (map field_line pairs ++ [] :: blanks)
    = Ok (fields ++ fields_of_pairs pairs).
Proof.
  intros Hblanks.
  induction pairs as [|[n v] pairs IH]; intros fields fuel Hfuel Hok Htl.
  - rewrite app_nil_r. apply parse_loop_blanks. now constructor.
  - destruct fuel as [|fuel]; [simpl in Hfuel; lia|].
    inversion Hok as [|? ? [Hn Hv] Hok']; subst. simpl in Hn, Hv, Htl.
    cbn [map app Fields.parse_loop].
    replace (str_eqb (field_line (n, v)) []) with false.
    2:{ symmetry. apply str_eqb_neq. unfold field_line. simpl.
        destruct n; discriminate. }
    unfold split1, field_line at 1. cbn [fst snd].
    change (u ": " ++ v) with (58%N :: 32%N :: v).
    rewrite partition_colon by assumption.
    cbn [unpack2 rbind]. change (lstrip (32%N :: v)) with (lstrip v).
    rewrite lstrip_fixed by assumption.
    destruct pairs as [|p pairs].
    + simpl. now rewrite parse_loop_blanks.
    + cbn [map app]. inversion Htl as [|? ? Hp Htl']; subst.
      rewrite join_multilines_next_field by assumption.
      change (field_line p :: map field_line pairs ++ [] :: blanks)
        with (map field_line (p :: pairs) ++ [] :: blanks).
      rewrite IH; auto.
      * unfold Fields.add. rewrite <- app_assoc. reflexivity.
      * simpl in Hfuel |- *. lia.
Qed.

(** The serialization of a list of pairs, followed by any number of empty
    lines, parses back to the list. *)
Lemma parse_to_str_blanks (blanks : nat) (pairs : list (str * str)) :
  Forall (fun p => has_colon (fst p) = false /\
                   contains NEWLINE (fst p) = false /\
                   contains NEWLINE (snd p) = false /\
                   starts_space (snd p) = false) pairs ->
  Forall (fun p => starts_blank (fst p) = false) (tl pairs) ->
  Fields.parse (Fields.to_str (fields_of_pairs pairs)
                ++ concat (repeat NEWLINE blanks)) NEWLINE
  = Ok (fields_of_pairs pairs).
Proof.
  intros Hok Htl. unfold Fields.parse, re_split.
  assert (Htext : Fields.to_str (fields_of_pairs pairs)
                  ++ concat (repeat NEWLINE blanks)
                  = concat (map (fun line => line ++ NEWLINE)
                                (map field_line pairs ++ repeat [] blanks))).
  { rewrite lines_text_app, to_str_lines. f_equal.
    induction blanks as [|k IH]; [reflexivity|]. simpl. now rewrite IH. }
  rewrite Htext, re_split_from_lines.
  - rewrite <- app_assoc, <- repeat_cons.
    apply (parse_loop_field_lines_blanks (repeat [] blanks) pairs) with
        (fields := []).
    + apply Forall_forall. intros x Hx. now apply repeat_spec in Hx.
    + rewrite length_app, length_map. simpl. lia.
    + revert Hok. apply Forall_impl. tauto.
    + assumption.
  - apply Forall_app. split.
    + apply Forall_map. revert Hok. apply Forall_impl.
      intros [n v] (_ & Hn & Hv & _). now apply contains_newline_field.
    + apply Forall_forall. intros x Hx. apply repeat_spec in Hx. now subst.
  - apply Nat.le_refl.
Qed.

(** X7: a serialized [HTTPHeaders] parses back: the status line and the
    fields are recovered, provided that the status line holds no line
    terminator and the (name, value) pairs are such as a plain field list
    recovers (no colon in a name, no line terminator in a name or a value,
    no white space at the start of a value, no space or tab at the start
    of a name after the first). *)
Theorem HTTPHeaders_parse_iter_str (status : str)
        (pairs : list (str * str)) :
  contains NEWLINE status = false ->
  Forall (fun p => has_colon (fst p) = false /\
                   contains NEWLINE (fst p) = false /\
                   contains NEWLINE (snd p) = false /\
                   starts_space (snd p) = false) pairs ->
  Forall (fun p => starts_blank (fst p) = false) (tl pairs) ->
  HTTPHeaders.parse
    (concat (HTTPHeaders.iter_str
               (HTTPHeaders.mk status (fields_of_pairs pairs)))) NEWLINE
  = Ok (HTTPHeaders.mk status (fields_of_pairs pairs)).
Proof.
  intros Hs Hok Htl. unfold HTTPHeaders.parse, HTTPHeaders.iter_str.
  cbn [HTTPHeaders.status HTTPHeaders._list concat].
  fold (Fields.to_str (fields_of_pairs pairs)).
  unfold split1. rewrite partition_newline by assumption.
  cbn [unpack2 rbind].
  pose proof (parse_to_str_blanks 0 pairs Hok Htl) as H.
  simpl in H. rewrite app_nil_r in H. rewrite H. reflexivity.
Qed.

Lemma HTTPHeaders_parse_iter_str_witness :
  HTTPHeaders.parse
    (concat (HTTPHeaders.iter_str
               (HTTPHeaders.mk (u "HTTP/1.1 200 OK")
                               (fields_of_pairs [(u "Host", u "a");
                                                 (u "ETag", u "x:y")]))))
    NEWLINE
  = Ok (HTTPHeaders.mk (u "HTTP/1.1 200 OK")
                       (fields_of_pairs [(u "Host", u "a");
                                         (u "ETag", u "x:y")])).
Proof.
  apply (HTTPHeaders_parse_iter_str
           (u "HTTP/1.1 200 OK") [(u "Host", u "a"); (u "ETag", u "x:y")]).
  - reflexivity.
  - repeat constructor.
  - repeat constructor.
Defined.

Lemma join_multilines_folds (conts : list str) : forall value,
  Forall (fun line => starts_blank line = true) conts ->
  Fields.join_multilines value (conts ++ [[]])
  = (value ++ concat (map (skipn 1) conts), []).
Proof.
  induction conts as [|line conts IH]; intros value H.
  - simpl. now rewrite app_nil_r.
  - inversion H as [|? ? Hline Hrest]; subst.
    destruct line as [|c tail]; [discriminate|]. simpl in Hline.
    cbn [app Fields.join_multilines]. rewrite Hline. cbn [negb].
    rewrite IH by assumption. simpl. now rewrite app_assoc.
Qed.

(** X8: continuation lines are folded into the value without a separator.
    A field line followed by lines that each begin with a space or a tab
    parses to one field, whose value is the text after the colon, stripped
    of its leading white space, followed by every continuation line
    without its first character. *)
Theorem parse_folds_continuations (name first : str) (conts : list str) :
  has_colon name = false ->
  contains NEWLINE (name ++ u ":" ++ first) = false ->
  Forall (fun line => starts_blank line = true /\
                      contains NEWLINE line = false) conts ->
  Fields.parse
    (concat (map (fun line => line ++ NEWLINE)
                 ((name ++ u ":" ++ first) :: conts))) NEWLINE
  = Ok [(name, PStr (lstrip first ++ concat (map (skipn 1) conts)))].
Proof.
  intros Hname Hfirst Hconts. unfold Fields.parse, re_split.
  rewrite re_split_from_lines.
  - cbn [app length Fields.parse_loop].
    replace (str_eqb (name ++ u ":" ++ first) []) with false.
    2:{ symmetry. apply str_eqb_neq. destruct name; discriminate. }
    unfold split1. change (u ":" ++ first) with (58%N :: first).
    rewrite partition_colon by assumption. cbn [unpack2 rbind].
    rewrite join_multilines_folds.
    + now rewrite parse_loop_done.
    + revert Hconts. apply Forall_impl. tauto.
  - constructor; [assumption|].
    revert Hconts. apply Forall_impl. tauto.
  - apply Nat.le_refl.
Qed.

Lemma parse_folds_continuations_witness :
  Fields.parse
    (concat (map (fun line => line ++ NEWLINE)
                 ((u "X" ++ u ":" ++ u "  a")
                    :: [u " b"; (9%N :: u "c d")])))
    NEWLINE
  = Ok [(u "X", PStr (lstrip (u "  a")
                      ++ concat (map (skipn 1) [u " b"; (9%N :: u "c d")])))].
Proof.
  apply (parse_folds_continuations (u "X") (u "  a") [u " b"; (9%N :: u "c d")]).
  - reflexivity.
  - reflexivity.
  - repeat constructor.
Defined.

Lemma partition_colon_before (line before after : str) :
  partition N.eqb (u ":") line = Some (before, after) ->
  has_colon before = false.
Proof.
  revert before after. induction line as [|c line IH]; intros before after H.
  - discriminate.
  - change (u ":") with [58%N] in *. cbn [partition startswith] in H.
    destruct (c =? 58)%N eqn:Hc; cbn [andb] in H.
    + now injection H as <- _.
    + destruct (partition N.eqb [58%N] line) as [[x y]|] eqn:P;
        [|discriminate].
      injection H as <- _. unfold has_colon. cbn [existsb].
      rewrite N.eqb_sym, Hc. exact (IH _ _ eq_refl).
Qed.

Lemma parse_loop_fields (fuel : nat) :
  forall (fields result : Fields.t) (lines : list str),
    Fields.parse_loop fuel fields lines = Ok result ->
    exists parsed,
      result = fields ++ parsed /\
      Forall (fun x => has_colon (fst x) = false /\
                       exists v, snd x = PStr v) parsed /\
      length parsed <= length lines.
Proof.
  induction fuel as [|fuel IH]; intros fields result lines H.
  - injection H as <-. exists []. rewrite app_nil_r.
    repeat split; [constructor | simpl; lia].
  - destruct lines as [|line lines].
    + injection H as <-. exists []. rewrite app_nil_r.
      repeat split; [constructor | simpl; lia].
    + cbn [Fields.parse_loop] in H. destruct (str_eqb line []).
      * apply IH in H. destruct H as (parsed & -> & Hp & Hl).
        exists parsed. repeat split; auto. simpl. lia.
      * unfold split1 in H.
        destruct (partition N.eqb (u ":") line) as [[name value]|] eqn:P;
          cbn [unpack2 rbind] in H; [|discriminate].
        pose proof (join_multilines_shorter lines (lstrip value)) as Hj.
        destruct (Fields.join_multilines (lstrip value) lines)
          as [value' lines'].
        apply IH in H. destruct H as (parsed & -> & Hp & Hl).
        exists ((name, PStr value') :: parsed). unfold Fields.add.
        rewrite <- app_assoc. repeat split.
        -- constructor; [|assumption]. split; [|now exists value'].
           exact (partition_colon_before _ _ _ P).
        -- simpl in *. lia.
Qed.

(** X9: with the line terminator [NEWLINE], [Fields.parse] fails with
    [ValueError] only.  What it returns holds [str] values and names
    without a colon, at most one field for each line of the text; the
    empty text gives the empty list. *)
Theorem parse_yields_text_fields (s : str) :
  (forall e, Fields.parse s NEWLINE = Raise e -> e = ValueError) /\
  (forall fields,
      Fields.parse s NEWLINE = Ok fields ->
      Forall (fun x => has_colon (fst x) = false /\
                       exists v, snd x = PStr v) fields /\
      length fields <= length (re_split NEWLINE s)) /\
  Fields.parse [] NEWLINE = Ok [].
Proof.
  unfold Fields.parse. split; [|split].
  - intros e. apply parse_loop_raises.
  - intros fields H. apply parse_loop_fields in H.
    destruct H as (parsed & -> & Hp & Hl). now split.
  - reflexivity.
Qed.

(** ** UTF-8: decoding what was encoded *)

Lemma byte_val_of (n : N) : (n < 256)%N -> byte_val (byte_of n) = n.
Proof.
  intros H. unfold byte_val, byte_of.
  destruct (Byte.of_N n) as [x|] eqn:E.
  - now apply Byte.to_of_N.
  - apply Byte.of_N_None_iff in E. lia.
Qed.

Lemma split64 (c : N) :
  (c = 64 * (c / 64) + c mod 64 /\ c mod 64 < 64 /\
   c / 64 = 64 * (c / 4096) + (c / 64) mod 64 /\ (c / 64) mod 64 < 64 /\
   c / 4096 = 64 * (c / 262144) + (c / 4096) mod 64 /\
   (c / 4096) mod 64 < 64)%N.
Proof.
  assert (H1 : (c / 4096 = c / 64 / 64)%N) by (now rewrite N.Div0.div_div).
  assert (H2 : (c / 262144 = c / 4096 / 64)%N)
    by (now rewrite N.Div0.div_div).
  rewrite H2, H1.
  repeat split; try (apply N.div_mod'); apply N.mod_lt; discriminate.
Qed.

Lemma decode_cons (b0 : Byte.byte) (t0 : bytes) :
  decode (b0 :: t0)
  = let v0 := byte_val b0 in
    if (v0 <? 128)%N then cons_ok v0 (decode t0)
    else if (v0 <? 224)%N then
      match t0 with
      | b1 :: t1 =>
        let c := ((v0 - 192) * 64 + cont_bits b1)%N in
        if (192 <=? v0)%N && is_cont b1 && (128 <=? c)%N
        then cons_ok c (decode t1) else Raise UnicodeDecodeError
      | _ => Raise UnicodeDecodeError
      end
    else if (v0 <? 240)%N then
      match t0 with
      | b1 :: b2 :: t2 =>
        let c := ((v0 - 224) * 4096 + cont_bits b1 * 64 + cont_bits b2)%N in
        if is_cont b1 && is_cont b2 && (2048 <=? c)%N && negb (is_surrogate c)
        then cons_ok c (decode t2) else Raise UnicodeDecodeError
      | _ => Raise UnicodeDecodeError
      end
    else
      match t0 with
      | b1 :: b2 :: b3 :: t3 =>
        let c := ((v0 - 240) * 262144 + cont_bits b1 * 4096
                  + cont_bits b2 * 64 + cont_bits b3)%N in
        if is_cont b1 && is_cont b2 && is_cont b3
           && (65536 <=? c)%N && (c <=? 1114111)%N
        then cons_ok c (decode t3) else Raise UnicodeDecodeError
      | _ => Raise UnicodeDecodeError
      end.
Proof. reflexivity. Qed.

Ltac decide_comparisons :=
  repeat match goal with
         | |- context [(?a <? ?b)%N] => destruct (N.ltb_spec a b); try lia
         | |- context [(?a <=? ?b)%N] => destruct (N.leb_spec a b); try lia
         end.

(** The octets of one encoded character decode to it. *)
Lemma Ok_inj {A} (a a' : A) : Ok a = Ok a' -> a = a'.
Proof. congruence. Qed.

Lemma decode_encode_char (c : char) (x rest : bytes) :
  encode_char c = Ok x -> decode (x ++ rest) = cons_ok c (decode rest).
Proof.
  unfold encode_char, is_surrogate.
  destruct (split64 c) as (H1 & H2 & H3 & H4 & H5 & H6).
  set (r1 := (c mod 64)%N) in *. set (r2 := ((c / 64) mod 64)%N) in *.
  set (r3 := ((c / 4096) mod 64)%N) in *.
  set (q3 := (c / 262144)%N) in *. set (q2 := (c / 4096)%N) in *.
  set (q1 := (c / 64)%N) in *.
  clearbody r1 r2 r3 q1 q2 q3.
  destruct (N.ltb_spec c 128).
  { intros Henc. apply Ok_inj in Henc. subst x. rewrite <- ?app_comm_cons, app_nil_l, decode_cons.
    cbv zeta. rewrite byte_val_of by lia. decide_comparisons. reflexivity. }
  destruct (N.ltb_spec c 2048).
  { intros Henc. apply Ok_inj in Henc. subst x. rewrite <- ?app_comm_cons, app_nil_l, decode_cons.
    cbv zeta. unfold is_cont, cont_bits. rewrite !byte_val_of by lia.
    decide_comparisons. cbn [andb]. f_equal. lia. }
  destruct (N.ltb_spec c 65536).
  { destruct (N.leb_spec 55296 c); destruct (N.leb_spec c 57343);
      cbn [andb]; try discriminate;
      intros Henc; apply Ok_inj in Henc; subst x; rewrite <- ?app_comm_cons, app_nil_l, decode_cons;
      cbv zeta; unfold is_cont, cont_bits, is_surrogate;
      rewrite !byte_val_of by lia;
      decide_comparisons; cbn [andb negb]; f_equal; lia. }
  destruct (N.leb_spec c 1114111); [|discriminate].
  intros Henc. apply Ok_inj in Henc. subst x. rewrite <- ?app_comm_cons, app_nil_l, decode_cons.
  cbv zeta. unfold is_cont, cont_bits. rewrite !byte_val_of by lia.
  decide_comparisons. cbn [andb]. f_equal. lia.
Qed.

(** Encoded text decodes to itself, whatever follows is decoded after. *)
Lemma decode_encode_app (s : str) : forall (x rest : bytes),
  encode s = Ok x ->
  decode (x ++ rest) = rbind (decode rest) (fun r => Ok (s ++ r)).
Proof.
  induction s as [|c s IH]; intros x rest H.
  - injection H as <-. simpl. now destruct (decode rest).
  - cbn [encode] in H.
    destruct (encode_char c) as [xc|] eqn:Hc; [|discriminate].
    destruct (encode s) as [xs|] eqn:Hs; [|discriminate].
    injection H as <-. rewrite <- app_assoc.
    rewrite (decode_encode_char c xc _ Hc), (IH xs rest eq_refl).
    now destruct (decode rest).
Qed.

Lemma decode_encode_join (chunks : list str) : forall (x : bytes),
  encode_join chunks = Ok x -> decode x = Ok (concat chunks).
Proof.
  induction chunks as [|s chunks IH]; intros x H.
  - now injection H as <-.
  - cbn [encode_join] in H.
    destruct (encode s) as [xs|] eqn:Hs; cbn [rbind] in H; [|discriminate].
    destruct (encode_join chunks) as [xr|] eqn:Hr; cbn [rbind] in H;
      [|discriminate].
    injection H as <-.
    rewrite (decode_encode_app s xs xr Hs), (IH xr eq_refl). reflexivity.
Qed.

(** ** Header: parsing what was serialized *)

(** X10: the octets of a serialized header parse back to the header:
    [Header.parse(bytes(header))] returns the version and the fields,
    provided that the version holds no line terminator and that the
    fields are text pairs such as a field list recovers (no colon in a
    name, no line terminator in a name or a value, no white space at the
    start of a value, no space or tab at the start of a name after the
    first). *)
Theorem Header_parse_to_bytes (version : str) (pairs : list (str * str))
        (octets : bytes) :
  contains NEWLINE version = false ->
  Forall (fun p => has_colon (fst p) = false /\
                   contains NEWLINE (fst p) = false /\
                   contains NEWLINE (snd p) = false /\
                   starts_space (snd p) = false) pairs ->
  Forall (fun p => starts_blank (fst p) = false) (tl pairs) ->
  Header.to_bytes (Header.mk version (fields_of_pairs pairs)) = Ok octets ->
  Header.parse octets = Ok (Header.mk version (fields_of_pairs pairs)).
Proof.
  intros Hv Hok Htl Hbytes. unfold Header.to_bytes in Hbytes.
  apply decode_encode_join in Hbytes. unfold Header.parse.
  rewrite Hbytes. cbn [rbind].
  assert (Htext : concat (Header.iter_str
                            (Header.mk version (fields_of_pairs pairs)))
                  = (u "WARC/" ++ version) ++ NEWLINE
                    ++ (Fields.to_str (fields_of_pairs pairs)
                        ++ concat (repeat NEWLINE 1))).
  { unfold Header.iter_str. cbn [Header.version Header.fields].
    rewrite concat_app. unfold Fields.to_str. simpl.
    now rewrite concat_app, <- !app_assoc. }
  rewrite Htext. unfold split1. rewrite partition_newline.
  - cbn [unpack2 rbind].
    change (str_startswith (u "WARC/" ++ version) (u "WARC")) with true.
    cbn [negb]. rewrite parse_to_str_blanks by assumption.
    reflexivity.
  - change (u "WARC/" ++ version)
      with (87 :: 65 :: 82 :: 67 :: 47 :: version)%N.
    rewrite !contains_cons, Hv. reflexivity.
Qed.

Lemma Header_parse_to_bytes_witness :
  Header.parse (b ("WARC/1.0" ++ CRLF ++ "WARC-Type: warcinfo" ++ CRLF
                   ++ "Content-Length: 0" ++ CRLF ++ CRLF)%string)
  = Ok (Header.mk (u "1.0")
                  (fields_of_pairs [(u "WARC-Type", u "warcinfo");
                                    (u "Content-Length", u "0")])).
Proof.
  apply (Header_parse_to_bytes
           (u "1.0")
           [(u "WARC-Type", u "warcinfo"); (u "Content-Length", u "0")]).
  - reflexivity.
  - repeat constructor.
  - repeat constructor.
  - reflexivity.
Defined.

(** ** BinaryFileRef: what the generator yields *)

Lemma firstn_plus {A} (a k : nat) : forall l : list A,
  firstn (a + k) l = firstn a l ++ firstn k (skipn a l).
Proof.
  induction a as [|a IH]; intros l; [reflexivity|].
  destruct l as [|x l]; simpl; [now rewrite firstn_nil | now rewrite IH].
Qed.

(** Reading a prefix and then the rest of a range reads the range. *)
Lemma firstn_read_split {A} (m k : nat) (l : list A) :
  m <= k ->
  firstn k l
  = firstn m l ++ firstn (k - length (firstn m l))
                         (skipn (length (firstn m l)) l).
Proof.
  intros Hm. rewrite length_firstn.
  destruct (Nat.le_gt_cases m (length l)) as [Hle|Hgt].
  - rewrite Nat.min_l by assumption.
    replace k with (m + (k - m)) at 1 by lia. apply firstn_plus.
  - rewrite Nat.min_r by lia.
    rewrite skipn_all, firstn_nil, app_nil_r.
    now rewrite !firstn_all2 by lia.
Qed.

Lemma firstn_read_rest {A} (m : nat) (l : list A) :
  firstn m l ++ skipn (length (firstn m l)) l = l.
Proof.
  rewrite length_firstn.
  destruct (Nat.le_gt_cases m (length l)) as [Hle|Hgt].
  - rewrite Nat.min_l by assumption. apply firstn_skipn.
  - rewrite Nat.min_r by lia.
    now rewrite firstn_all2, skipn_all, app_nil_r by lia.
Qed.

Lemma remaining_moved (f : file_obj) (k : nat) :
  remaining (mkfile (name f) (content f) (pos f + k))
  = skipn k (remaining f).
Proof. unfold remaining at 1. cbn [pos content]. apply remaining_after_read. Qed.

(** With a length that is not negative the loop yields, from the cursor
    on, what is left of the length, in chunks that are not empty and hold
    at most 4096 octets. *)
Lemma read_loop_range (L : Z) (self : BinaryFileRef.t) :
  BinaryFileRef.length self = Some L ->
  forall (fuel : nat) (bytes_read : Z) (f : file_obj),
    (0 <= bytes_read <= L)%Z ->
    length (remaining f) < fuel ->
    exists chunks,
      BinaryFileRef.read_loop fuel self bytes_read f = Some (chunks, None) /\
      concat chunks = firstn (Z.to_nat (L - bytes_read)) (remaining f) /\
      Forall (fun chunk => chunk <> [] /\ length chunk <= 4096) chunks.
Proof.
  intros HL. induction fuel as [|fuel IH]; intros bytes_read f Hb Hfuel.
  - lia.
  - cbn [BinaryFileRef.read_loop]. rewrite HL.
    set (n := Z.min 4096 (L - bytes_read)).
    assert (Hn : (0 <= n <= L - bytes_read)%Z /\ (n <= 4096)%Z)
      by (unfold n; lia).
    unfold file_read.
    replace (n <? -1)%Z with false by (symmetry; apply Z.ltb_ge; lia).
    replace (n =? -1)%Z with false by (symmetry; apply Z.eqb_neq; lia).
    set (data := firstn (Z.to_nat n) (remaining f)).
    assert (Hdata : length data <= Z.to_nat n)
      by (unfold data; rewrite length_firstn; lia).
    destruct (bytes_eqb data [] || (n =? 0)%Z) eqn:Hstop.
    + exists []. split; [reflexivity|]. split; [|constructor].
      apply orb_true_iff in Hstop. destruct Hstop as [He|Hz].
      * apply bytes_eqb_eq in He. unfold data in He.
        destruct (Z.to_nat n) eqn:En.
        -- replace (L - bytes_read)%Z with 0%Z by (unfold n in *; lia).
           reflexivity.
        -- destruct (remaining f); [now rewrite firstn_nil | discriminate].
      * apply Z.eqb_eq in Hz.
        replace (L - bytes_read)%Z with 0%Z by (unfold n in *; lia).
        reflexivity.
    + apply orb_false_iff in Hstop. destruct Hstop as [Hne _].
      apply bytes_eqb_neq in Hne.
      assert (0 < length data) by (destruct data; [congruence | simpl; lia]).
      assert (length data <= length (remaining f))
        by (unfold data; rewrite length_firstn; lia).
      destruct (IH (bytes_read + len_Z data)%Z
                   (mkfile (name f) (content f) (pos f + length data)))
        as (chunks & Hloop & Hcat & Hall).
      * unfold len_Z. lia.
      * rewrite remaining_moved, length_skipn. lia.
      * rewrite Hloop. exists (data :: chunks). split; [reflexivity|].
        split; [|constructor; [split; [assumption | lia] | assumption]].
        cbn [concat]. rewrite Hcat, remaining_moved.
        rewrite (firstn_read_split (Z.to_nat n) (Z.to_nat (L - bytes_read))
                                   (remaining f)) by lia.
        fold data. f_equal. f_equal. unfold len_Z. lia.
Qed.

(** Without a length the loop yields everything from the cursor on. *)
Lemma read_loop_to_end (self : BinaryFileRef.t) :
  BinaryFileRef.length self = None ->
  forall (fuel : nat) (bytes_read : Z) (f : file_obj),
    length (remaining f) < fuel ->
    exists chunks,
      BinaryFileRef.read_loop fuel self bytes_read f = Some (chunks, None) /\
      concat chunks = remaining f /\
      Forall (fun chunk => chunk <> [] /\ length chunk <= 4096) chunks.
Proof.
  intros HL. induction fuel as [|fuel IH]; intros bytes_read f Hfuel.
  - lia.
  - cbn [BinaryFileRef.read_loop]. rewrite HL. cbv zeta. unfold file_read.
    change (4096 <? -1)%Z with false. change (4096 =? -1)%Z with false.
    change (4096 =? 0)%Z with false. cbv beta iota. rewrite orb_false_r.
    set (data := firstn (Z.to_nat 4096) (remaining f)).
    assert (Hdata : length data <= 4096)
      by (unfold data; rewrite length_firstn; lia).
    destruct (bytes_eqb data []) eqn:Hstop.
    + exists []. split; [reflexivity|]. split; [|constructor].
      apply bytes_eqb_eq in Hstop. unfold data in Hstop.
      destruct (remaining f); [reflexivity | discriminate].
    + apply bytes_eqb_neq in Hstop.
      assert (0 < length data) by (destruct data; [congruence | simpl; lia]).
      assert (length data <= length (remaining f))
        by (unfold data; rewrite length_firstn; lia).
      destruct (IH (bytes_read + len_Z data)%Z
                   (mkfile (name f) (content f) (pos f + length data)))
        as (chunks & Hloop & Hcat & Hall).
      * rewrite remaining_moved, length_skipn. lia.
      * rewrite Hloop. exists (data :: chunks). split; [reflexivity|].
        split; [|constructor; [split; assumption | assumption]].
        cbn [concat]. rewrite Hcat, remaining_moved.
        apply firstn_read_rest.
Qed.

(** X11: the generator yields the octets of the referenced range and
    nothing else.  For an offset and a length that are not negative, the
    chunks concatenate to the [length] octets (fewer at the end of the
    file, all of them when the length is [None]) that start at the offset,
    or, when the offset is zero and the seek is skipped, at the cursor the
    file object already has.  No chunk is empty or longer than 4096
    octets, and the generator ends without an exception. *)
Theorem iter_bytes_over_source_file_yields_range
        (self : BinaryFileRef.t) (file_obj : file_obj) (offset : Z) :
  BinaryFileRef.file_offset self = Some offset ->
  (0 <= offset)%Z ->
  (forall L, BinaryFileRef.length self = Some L -> (0 <= L)%Z) ->
  let start := if (offset =? 0)%Z then pos file_obj else Z.to_nat offset in
  let ahead := skipn start (content file_obj) in
  exists chunks,
    BinaryFileRef.iter_bytes_over_source_file self file_obj
    = Some (chunks, None) /\
    concat chunks = match BinaryFileRef.length self with
                    | Some L => firstn (Z.to_nat L) ahead
                    | None => ahead
                    end /\
    Forall (fun chunk => chunk <> [] /\ length chunk <= 4096) chunks.
Proof.
  intros Hoff Hpos HL. cbv zeta.
  unfold BinaryFileRef.iter_bytes_over_source_file. rewrite Hoff.
  assert (Hloop : forall f,
             exists chunks,
               BinaryFileRef.read_loop (S (length (remaining f))) self 0 f
               = Some (chunks, None) /\
               concat chunks = match BinaryFileRef.length self with
                               | Some L => firstn (Z.to_nat L) (remaining f)
                               | None => remaining f
                               end /\
               Forall (fun chunk => chunk <> [] /\ length chunk <= 4096)
                      chunks).
  { intros f. destruct (BinaryFileRef.length self) as [L|] eqn:E.
    - destruct (read_loop_range L self E (S (length (remaining f))) 0%Z f)
        as (chunks & H & Hc & Ha); [specialize (HL L eq_refl); lia | lia |].
      exists chunks. rewrite Z.sub_0_r in Hc. auto.
    - apply (read_loop_to_end self E). lia. }
  destruct (offset =? 0)%Z; [apply Hloop|].
  unfold file_seek.
  replace (offset <? 0)%Z with false by (symmetry; apply Z.ltb_ge; lia).
  apply (Hloop (mkfile (name file_obj) (content file_obj) (Z.to_nat offset))).
Qed.

Lemma iter_bytes_over_source_file_yields_range_witness :
  exists chunks,
    BinaryFileRef.iter_bytes_over_source_file
      (BinaryFileRef.mk (Some (u "a.warc")) (Some 2%Z) (Some 3%Z))
      (mkfile (u "a.warc") (b "0123456789") 7)
    = Some (chunks, None) /\
    concat chunks = b "234" /\
    Forall (fun chunk => chunk <> [] /\ length chunk <= 4096) chunks.
Proof.
  apply (iter_bytes_over_source_file_yields_range
           (BinaryFileRef.mk (Some (u "a.warc")) (Some 2%Z) (Some 3%Z))
           (mkfile (u "a.warc") (b "0123456789") 7) 2).
  - reflexivity.
  - lia.
  - intros L H. injection H as <-. lia.
Defined.

(** ** Record: the typed views of the header *)

(** X12: the accessors are views of the header's fields that do not
    disturb one another.  Setting the record id or the type reads back
    through its getter and leaves the two other views, the version, the
    content block and the file offset as they were; setting the content
    length stores [int(i)], reads back as that integer, leaves the other
    views alone, and fails as [int(i)] fails. *)
Theorem accessors_are_independent_views (self : Record.t) (s i : pyval) :
  (exists r,
      Record.set_record_id self s = Ok r /\
      Record.record_id r = Ok s /\
      Record.warc_type r = Record.warc_type self /\
      Record.content_length r = Record.content_length self /\
      Header.version (Record.header r) = Header.version (Record.header self) /\
      Record.content_block r = Record.content_block self /\
      Record.file_offset r = Record.file_offset self) /\
  (exists r,
      Record.set_warc_type self s = Ok r /\
      Record.warc_type r = Ok s /\
      Record.record_id r = Record.record_id self /\
      Record.content_length r = Record.content_length self /\
      Header.version (Record.header r) = Header.version (Record.header self) /\
      Record.content_block r = Record.content_block self /\
      Record.file_offset r = Record.file_offset self) /\
  match int_of i with
  | Raise e => Record.set_content_length self i = Raise e
  | Ok n =>
    exists r,
      Record.set_content_length self i = Ok r /\
      Record.content_length r = Ok n /\
      Fields.getitem (Header.fields (Record.header r)) (u "Content-Length")
      = Ok (PInt n) /\
      Record.record_id r = Record.record_id self /\
      Record.warc_type r = Record.warc_type self /\
      Header.version (Record.header r) = Header.version (Record.header self) /\
      Record.content_block r = Record.content_block self /\
      Record.file_offset r = Record.file_offset self
  end.
Proof.
  assert (Hset : forall name value,
             exists fields,
               Fields.setitem (Header.fields (Record.header self)) name value
               = Ok fields /\
               Fields.getitem fields name = Ok value /\
               forall other, Fields.same_name name other = false ->
                             Fields.getitem fields other
                             = Fields.getitem
                                 (Header.fields (Record.header self)) other).
  { intros name value.
    destruct (setitem_shape (Header.fields (Record.header self)) name value)
      as (pre & post & H & _).
    eexists. split; [exact H|]. split.
    - exact (getitem_setitem_same _ _ _ _ H).
    - intros other Ho. exact (getitem_setitem_other _ _ _ _ _ H Ho). }
  split; [|split].
  - destruct (Hset (u "WARC-Record-ID") s) as (fields & H & Hget & Hother).
    unfold Record.set_record_id. rewrite H. cbn [rbind].
    eexists. split; [reflexivity|].
    unfold Record.record_id, Record.warc_type, Record.content_length.
    cbn [Record.header Record.content_block Record.file_offset
         Header.fields Header.version].
    rewrite Hget, !Hother by reflexivity. repeat split.
  - destruct (Hset (u "WARC-Type") s) as (fields & H & Hget & Hother).
    unfold Record.set_warc_type. rewrite H. cbn [rbind].
    eexists. split; [reflexivity|].
    unfold Record.record_id, Record.warc_type, Record.content_length.
    cbn [Record.header Record.content_block Record.file_offset
         Header.fields Header.version].
    rewrite Hget, !Hother by reflexivity. repeat split.
  - unfold Record.set_content_length.
    destruct (int_of i) as [n|e]; cbn [rbind]; [|reflexivity].
    destruct (Hset (u "Content-Length") (PInt n))
      as (fields & H & Hget & Hother).
    rewrite H. cbn [rbind]. eexists. split; [reflexivity|].
    unfold Record.record_id, Record.warc_type, Record.content_length.
    cbn [Record.header Record.content_block Record.file_offset
         Header.fields Header.version].
    rewrite Hget, !Hother by reflexivity. repeat split.
Qed.

(** ** Content blocks: how [load] frames the window *)

Lemma bytes_startswith_split (sep : bytes) : forall s,
  bytes_startswith s sep = true -> s = sep ++ skipn (length sep) s.
Proof.
  unfold bytes_startswith.
  induction sep as [|x sep IH]; intros s H; [reflexivity|].
  destruct s as [|y s]; simpl in H; [discriminate|].
  apply andb_true_iff in H. destruct H as [Hxy H].
  apply Byte.byte_dec_bl in Hxy. subst. simpl. f_equal. now apply IH.
Qed.

(** An occurrence found by [partition] splits the octets around it. *)
Lemma partition_bytes_split (sep : bytes) : forall s before after,
  partition Byte.eqb sep s = Some (before, after) ->
  s = before ++ sep ++ after.
Proof.
  induction s as [|c s IH]; intros before after H; cbn [partition] in H.
  - destruct (startswith Byte.eqb [] sep) eqn:E; [|discriminate].
    injection H as <- <-. now apply bytes_startswith_split.
  - destruct (startswith Byte.eqb (c :: s) sep) eqn:E.
    + injection H as <- <-. now apply bytes_startswith_split.
    + destruct (partition Byte.eqb sep s) as [[x y]|] eqn:P; [|discriminate].
      injection H as <- <-. simpl. f_equal. now apply IH.
Qed.

Lemma firstn_within {A} (k m : nat) (l : list A) :
  k <= m -> firstn k (firstn m l) = firstn k l.
Proof. intros H. rewrite firstn_firstn. now rewrite Nat.min_l. Qed.

(** The parts of a loaded [BlockWithPayload]: the fields are parsed from
    the first [k] octets ahead of the cursor, the payload refers to the
    [n] octets after them, and the cursor is left at its end. *)
Lemma BlockWithPayload_load_parts
      (length : Z) (cls : field_cls) (w w' : world)
      (blk : BlockWithPayload.t) :
  BlockWithPayload.load length cls w = Ok (blk, w') ->
  (0 <= length)%Z ->
  exists (k n : nat) (text : str),
    k + n <= Z.to_nat length /\
    (Z.to_nat length <= List.length (remaining (file w)) ->
     k + n = Z.to_nat length) /\
    decode (firstn k (remaining (file w))) = Ok text /\
    field_cls_parse cls text = Ok (BlockWithPayload.fields blk) /\
    BlockWithPayload.payload blk
    = BinaryFileRef.mk (Some (name (file w)))
                       (Some (Z.of_nat (pos (file w) + k)))
                       (Some (Z.of_nat n)) /\
    w' = mkworld (mkfile (name (file w)) (content (file w))
                         (pos (file w) + k + n))
                 (warnings w) /\
    (n = 0 \/ exists before,
        firstn k (remaining (file w)) = before ++ FIELD_DELIM_BYTES).
Proof.
  intros H Hlen. unfold BlockWithPayload.load in H.
  apply bind_Ok in H. destruct H as (field_length & w0 & Hfind & H).
  set (window := firstn (Z.to_nat length) (remaining (file w))) in *.
  assert (Hfield :
            w0 = w /\
            ((exists before after,
                 window = before ++ FIELD_DELIM_BYTES ++ after /\
                 field_length = Z.of_nat (List.length before + 4))
             \/ (partition Byte.eqb FIELD_DELIM_BYTES window = None /\
                 field_length = length))).
  { unfold except_ValueError, find_file_pattern in Hfind. fold window in Hfind.
    destruct (partition Byte.eqb FIELD_DELIM_BYTES window)
      as [[before after]|] eqn:P.
    - injection Hfind as <- <-. split; [reflexivity|]. left.
      exists before, after. split; [now apply partition_bytes_split|].
      unfold len_Z. simpl. lia.
    - apply ret_Ok in Hfind. destruct Hfind as [-> ->]. auto. }
  destruct Hfield as [-> Hfield].
  assert (Hk : exists k : nat,
             k <= Z.to_nat field_length /\
             (field_length <= length)%Z /\
             firstn (Z.to_nat field_length) (remaining (file w))
             = firstn k (remaining (file w)) /\
             List.length (firstn k (remaining (file w))) = k /\
             (length - field_length = 0 \/
              (exists before,
                  firstn k (remaining (file w))
                  = before ++ FIELD_DELIM_BYTES) /\
              k = Z.to_nat field_length)%Z /\
             (Z.to_nat length <= List.length (remaining (file w)) ->
              k = Z.to_nat field_length)).
  { destruct Hfield as [(before & after & Hw & ->) | (_ & ->)].
    - assert (Hwl : List.length window <= Z.to_nat length)
        by (unfold window; rewrite length_firstn; lia).
      assert (Hwr : List.length window <= List.length (remaining (file w)))
        by (unfold window; rewrite length_firstn; lia).
      rewrite Hw, !length_app in Hwl, Hwr. simpl in Hwl, Hwr.
      exists (List.length before + 4). rewrite Nat2Z.id.
      assert (Hdata : firstn (List.length before + 4) (remaining (file w))
                      = before ++ FIELD_DELIM_BYTES).
      { rewrite <- (firstn_within _ (Z.to_nat length)) by lia.
        fold window. rewrite Hw.
        replace (before ++ FIELD_DELIM_BYTES ++ after)
          with ((before ++ FIELD_DELIM_BYTES) ++ after)
          by (now rewrite <- app_assoc).
        replace (List.length before + 4)
          with (List.length (before ++ FIELD_DELIM_BYTES) + 0)
          by (rewrite length_app; simpl; lia).
        now rewrite firstn_app_2, app_nil_r. }
      repeat split; try lia.
      + rewrite Hdata, length_app. reflexivity.
      + right. split; [now exists before | reflexivity].
    - exists (List.length window).
      assert (Hwl : List.length window
                    = Nat.min (Z.to_nat length)
                              (List.length (remaining (file w))))
        by (unfold window; apply length_firstn).
      split; [lia|]. split; [lia|]. split; [|split; [|split]].
      + rewrite Hwl.
        destruct (Nat.le_gt_cases (Z.to_nat length)
                                  (List.length (remaining (file w)))).
        * now rewrite Nat.min_l.
        * rewrite Nat.min_r by lia. now rewrite !firstn_all2 by lia.
      + rewrite length_firstn. lia.
      + left. lia.
      + intros Hall. lia. }
  destruct Hk as (k & Hkle & Hfl & Hread & Hklen & Hdelim & Hfull).
  apply bind_Ok in H. destruct H as (data & w1 & Hrd & H).
  assert (Hfnn : (0 <= field_length)%Z).
  { destruct Hfield as [(before & after & _ & ->) | (_ & ->)]; lia. }
  unfold read, on_file, file_read in Hrd.
  replace (field_length <? -1)%Z with false in Hrd
    by (symmetry; apply Z.ltb_ge; lia).
  replace (field_length =? -1)%Z with false in Hrd
    by (symmetry; apply Z.eqb_neq; lia).
  rewrite Hread in Hrd. injection Hrd as <- <-. rewrite Hklen in H.
  apply bind_Ok in H. destruct H as (text & w2 & Hdec & H).
  apply lift_Ok in Hdec. destruct Hdec as [Hdec ->].
  apply bind_Ok in H. destruct H as (fields & w2 & Hparse & H).
  apply lift_Ok in Hparse. destruct Hparse as [Hparse ->].
  unfold bind, tell, seek, on_file, file_tell, file_seek, ret,
    BinaryFileRef.set_source_file in H.
  cbn [file warnings pos name content] in H.
  replace (Z.of_nat (pos (file w) + k) + (length - field_length) <? 0)%Z
    with false in H by (symmetry; apply Z.ltb_ge; lia).
  injection H as <- <-.
  exists k, (Z.to_nat (length - field_length)), text.
  cbn [BlockWithPayload.fields BlockWithPayload.payload].
  repeat split; auto.
  - lia.
  - intros Hall. specialize (Hfull Hall). lia.
  - now rewrite Z2Nat.id by lia.
  - do 2 f_equal. lia.
  - destruct Hdelim as [Hz | [Hb _]]; [left; lia | now right].
Qed.

(** What a reference to [n] octets at offset [o] yields, when the seek is
    not skipped or nothing is to be read. *)
Lemma iter_bytes_range_at (f : file_obj) (fname : option str) (o n : nat) :
  n = 0 \/ 0 < o ->
  exists chunks,
    BinaryFileRef.iter_bytes_over_source_file
      (BinaryFileRef.mk fname (Some (Z.of_nat o)) (Some (Z.of_nat n))) f
    = Some (chunks, None) /\
    concat chunks = firstn n (skipn o (content f)).
Proof.
  intros Hcase. unfold BinaryFileRef.iter_bytes_over_source_file.
  cbn [BinaryFileRef.file_offset].
  assert (Hloop : forall g,
             exists chunks,
               BinaryFileRef.read_loop
                 (S (length (remaining g)))
                 (BinaryFileRef.mk fname (Some (Z.of_nat o))
                                   (Some (Z.of_nat n))) 0 g
               = Some (chunks, None) /\
               concat chunks = firstn n (remaining g)).
  { intros g.
    destruct (read_loop_range
                (Z.of_nat n)
                (BinaryFileRef.mk fname (Some (Z.of_nat o))
                                  (Some (Z.of_nat n)))
                eq_refl (S (length (remaining g))) 0%Z g)
      as (chunks & H & Hc & _); [lia | lia |].
    exists chunks. rewrite Z.sub_0_r, Nat2Z.id in Hc. auto. }
  destruct (Z.of_nat o =? 0)%Z eqn:Ho.
  - apply Z.eqb_eq in Ho. destruct Hcase as [-> | Hpos]; [|lia].
    destruct (Hloop f) as (chunks & H & Hc). exists chunks. auto.
  - unfold file_seek.
    replace (Z.of_nat o <? 0)%Z with false by (symmetry; apply Z.ltb_ge; lia).
    rewrite Nat2Z.id.
    apply (Hloop (mkfile (name f) (content f) o)).
Qed.

(** X13: a loaded [BlockWithPayload] splits its window in two.  When
    [load] returns for a declared length that is not negative, the fields
    are those parsed from the first [k] octets ahead of the cursor and the
    payload is a reference to the [n] octets that follow them: read back
    through any file object on the same contents, wherever its cursor is,
    it yields exactly those octets.  The two parts fit in the declared
    length and fill it when the file holds that many octets, and the cursor
    is left at the end of the payload. *)
Theorem BlockWithPayload_load_splits_window
        (length : Z) (cls : field_cls) (w w' : world)
        (blk : BlockWithPayload.t) (f : file_obj) :
  BlockWithPayload.load length cls w = Ok (blk, w') ->
  (0 <= length)%Z ->
  content f = content (file w) ->
  exists (k n : nat) (text : str) (chunks : list bytes),
    k + n <= Z.to_nat length /\
    (Z.to_nat length <= List.length (remaining (file w)) ->
     k + n = Z.to_nat length) /\
    decode (firstn k (remaining (file w))) = Ok text /\
    field_cls_parse cls text = Ok (BlockWithPayload.fields blk) /\
    BinaryFileRef.iter_bytes_over_source_file (BlockWithPayload.payload blk) f
    = Some (chunks, None) /\
    concat chunks = firstn n (skipn k (remaining (file w))) /\
    pos (file w') = pos (file w) + k + n /\
    content (file w') = content (file w) /\
    warnings w' = warnings w.
Proof.
  intros Hload Hlen Hf.
  destruct (BlockWithPayload_load_parts length cls w w' blk Hload Hlen)
    as (k & n & text & Hfit & Hfill & Hdec & Hparse & Hpay & -> & Hdelim).
  assert (Hcase : n = 0 \/ 0 < pos (file w) + k).
  { destruct Hdelim as [Hz | [before Hb]]; [now left | right].
    assert (Hl : List.length (firstn k (remaining (file w)))
                 = List.length (before ++ FIELD_DELIM_BYTES))
      by now rewrite Hb.
    rewrite length_firstn, length_app in Hl. simpl in Hl. lia. }
  destruct (iter_bytes_range_at f (Some (name (file w))) (pos (file w) + k) n
                                Hcase) as (chunks & Hiter & Hcat).
  exists k, n, text, chunks. rewrite Hpay, Hiter, Hcat, Hf.
  repeat split; auto.
  unfold remaining. now rewrite skipn_skipn, Nat.add_comm.
Qed.

Lemma BlockWithPayload_load_splits_window_witness :
  exists blk w',
    BlockWithPayload.load
      23 cls_Fields
      (mkworld (mkfile (u "f.warc")
                       (b ("k:   v" ++ CRLF ++ CRLF ++ "payload-bytes")%string)
                       0) [])
    = Ok (blk, w') /\
    pos (file w') = 23.
Proof.
  destruct (BlockWithPayload.load
              23 cls_Fields
              (mkworld (mkfile (u "f.warc")
                               (b ("k:   v" ++ CRLF ++ CRLF
                                   ++ "payload-bytes")%string) 0) []))
    as [[blk w']|e] eqn:Hload.
  - exists blk, w'. split; [reflexivity|].
    destruct (BlockWithPayload_load_splits_window
                23 cls_Fields _ w' blk
                (mkfile (u "f.warc")
                        (b ("k:   v" ++ CRLF ++ CRLF
                            ++ "payload-bytes")%string) 5)
                Hload ltac:(lia) eq_refl)
      as (k & n & text & chunks & _ & Hfill & _ & _ & _ & _ & Hpos & _).
    rewrite Hpos. cbn [file pos Nat.add]. apply Hfill.
    vm_compute. lia.
  - vm_compute in Hload. discriminate.
Defined.

(** ** Record.load: how a record is framed *)

Lemma find_header_parts (w w0 : world) (header_length : Z) :
  find_file_pattern FIELD_DELIM_BYTES None true w = Ok (header_length, w0) ->
  w0 = w /\
  exists before after,
    remaining (file w) = before ++ FIELD_DELIM_BYTES ++ after /\
    header_length = Z.of_nat (length before + 4).
Proof.
  unfold find_file_pattern.
  destruct (partition Byte.eqb FIELD_DELIM_BYTES (remaining (file w)))
    as [[before after]|] eqn:P; [|discriminate].
  intros H. injection H as <- <-. split; [reflexivity|].
  exists before, after. split; [now apply partition_bytes_split|].
  unfold len_Z. simpl. lia.
Qed.

Lemma read_within (w w1 : world) (k : nat) (data : bytes) :
  k <= length (remaining (file w)) ->
  read (Z.of_nat k) w = Ok (data, w1) ->
  data = firstn k (remaining (file w)) /\
  w1 = mkworld (mkfile (name (file w)) (content (file w)) (pos (file w) + k))
               (warnings w).
Proof.
  intros Hk. unfold read, on_file, file_read.
  replace (Z.of_nat k <? -1)%Z with false by (symmetry; apply Z.ltb_ge; lia).
  replace (Z.of_nat k =? -1)%Z with false by (symmetry; apply Z.eqb_neq; lia).
  rewrite Nat2Z.id. intros H. injection H as <- <-.
  split; [reflexivity|]. rewrite length_firstn. do 2 f_equal. lia.
Qed.

Lemma BinaryBlock_load_parts (length : Z) (w w' : world)
      (blk : BinaryBlock.t) :
  BinaryBlock.load length w = Ok (blk, w') ->
  blk = BinaryFileRef.mk (Some (name (file w)))
                         (Some (Z.of_nat (pos (file w)))) (Some length) /\
  (0 <= Z.of_nat (pos (file w)) + length)%Z /\
  w' = mkworld (mkfile (name (file w)) (content (file w))
                       (Z.to_nat (Z.of_nat (pos (file w)) + length)))
               (warnings w).
Proof.
  unfold BinaryBlock.load, bind, tell, seek, on_file, file_tell, file_seek,
    ret, BinaryFileRef.set_source_file.
  cbn [file warnings pos name content].
  destruct (Z.of_nat (pos (file w)) + length <? 0)%Z eqn:E; [discriminate|].
  intros H. injection H as <- <-. apply Z.ltb_ge in E. auto.
Qed.

(** The payload of a loaded [BlockWithPayload], whatever the declared
    length. *)
Lemma BlockWithPayload_load_payload (length : Z) (cls : field_cls)
      (w w' : world) (blk : BlockWithPayload.t) :
  BlockWithPayload.load length cls w = Ok (blk, w') ->
  exists k n : nat,
    BlockWithPayload.payload blk
    = BinaryFileRef.mk (Some (name (file w)))
                       (Some (Z.of_nat (pos (file w) + k)))
                       (Some (Z.of_nat n)) /\
    (n = 0 \/ 4 <= k) /\
    w' = mkworld (mkfile (name (file w)) (content (file w))
                         (pos (file w) + k + n))
                 (warnings w) /\
    ((0 <= length)%Z ->
     k + n <= Z.to_nat length /\
     (Z.to_nat length <= List.length (remaining (file w)) ->
      k + n = Z.to_nat length)).
Proof.
  intros H. destruct (Z.le_gt_cases 0 length) as [Hlen|Hneg].
  - destruct (BlockWithPayload_load_parts length cls w w' blk H Hlen)
      as (k & n & text & Hfit & Hfill & _ & _ & Hpay & -> & Hdelim).
    exists k, n. repeat split; auto.
    destruct Hdelim as [Hz | [before Hb]]; [now left | right].
    assert (Hl : List.length (firstn k (remaining (file w)))
                 = List.length (before ++ FIELD_DELIM_BYTES))
      by now rewrite Hb.
    rewrite length_firstn, length_app in Hl. simpl in Hl. lia.
  - unfold BlockWithPayload.load in H.
    apply bind_Ok in H. destruct H as (field_length & w0 & Hfind & H).
    assert (w0 = w /\ field_length = length) as [-> ->].
    { unfold except_ValueError, find_file_pattern in Hfind.
      replace (Z.to_nat length) with 0 in Hfind by lia.
      cbn in Hfind. apply ret_Ok in Hfind. now destruct Hfind. }
    apply bind_Ok in H. destruct H as (data & w1 & Hrd & H).
    unfold read, on_file, file_read in Hrd.
    destruct (length <? -1)%Z; [discriminate|].
    injection Hrd as <- <-.
    apply bind_Ok in H. destruct H as (text & w2 & Hdec & H).
    apply lift_Ok in Hdec. destruct Hdec as [Hdec ->].
    apply bind_Ok in H. destruct H as (fields & w2 & Hparse & H).
    apply lift_Ok in Hparse. destruct Hparse as [Hparse ->].
    unfold bind, tell, seek, on_file, file_tell, file_seek, ret,
      BinaryFileRef.set_source_file in H.
    cbn [file warnings pos name content] in H.
    rewrite Z.sub_diag, Z.add_0_r in H.
    match type of H with
    | context [(Z.of_nat (pos (file w) + ?k) <? 0)%Z] =>
      replace (Z.of_nat (pos (file w) + k) <? 0)%Z with false in H
        by (symmetry; apply Z.ltb_ge; lia);
        exists k, 0
    end.
    injection H as <- <-. cbn [BlockWithPayload.payload].
    rewrite Nat2Z.id.
    split; [reflexivity|]. split; [now left|].
    split; [now rewrite Nat.add_0_r | lia].
Qed.

Lemma load_block_parts (preserve_block : bool) (content_type : pyval)
      (declared : Z) (w w' : world) (block : ContentBlock) :
  Record.load_block preserve_block content_type declared w = Ok (block, w') ->
  (exists blk, block = BinaryBlock_ blk /\
               BinaryBlock.load declared w = Ok (blk, w'))
  \/ (exists blk cls, block = BlockWithPayload_ blk /\
                      BlockWithPayload.load declared cls w = Ok (blk, w')).
Proof.
  unfold Record.load_block.
  repeat match goal with
         | |- context [if ?c then _ else _] => destruct c
         end;
    intros H; apply bind_Ok in H; destruct H as (blk & w1 & Hload & H);
    apply ret_Ok in H; destruct H as [-> ->]; eauto.
Qed.

(** What [Record.load] did, with the header and the block laid out. *)
Lemma load_layout (preserve_block : bool) (w w' : world) (record : Record.t) :
  Record.load preserve_block w = Ok (record, w') ->
  exists (header_length : nat) (parsed : Header.t) (declared : Z)
         (content_type : pyval) (block : ContentBlock) (w2 : world),
    let w1 := mkworld (mkfile (name (file w)) (content (file w))
                              (pos (file w) + header_length))
                      (warnings w) in
    4 <= header_length /\
    header_length <= length (remaining (file w)) /\
    Header.parse (firstn header_length (remaining (file w))) = Ok parsed /\
    Record.content_length
      (Record.mk parsed None (Record.file_offset record)) = Ok declared /\
    Record.load_block preserve_block content_type declared w1
    = Ok (block, w2) /\
    Record.content_block record = Some block /\
    Record.file_offset record = Some (Z.of_nat (pos (file w))) /\
    file w' = file w2 /\
    (forall n, Record.content_length record = Ok n ->
               content_block_length block = Ok (PInt n)).
Proof.
  intros H. apply load_steps in H.
  destruct H as (header_length & data & w1 & parsed & declared & content_type
                 & block & w2 & new_len & Hfind & Hread & Hparse & Hdecl
                 & Htype & Hblock & Hnew & Hcases).
  apply find_header_parts in Hfind.
  destruct Hfind as (_ & before & after & Hrem & ->).
  assert (Hin : length before + 4 <= length (remaining (file w))).
  { rewrite Hrem, !length_app. simpl. lia. }
  destruct (read_within _ _ _ _ Hin Hread) as [-> ->].
  exists (length before + 4), parsed, declared, content_type, block, w2.
  cbv zeta. split; [lia|]. split; [assumption|]. split; [assumption|].
  destruct Hcases as [(-> & -> & ->) | (Hne & Hset & ->)].
  - cbn [Record.file_offset Record.content_block]. repeat split; auto.
    intros n Hn. unfold Record.content_length in Hn, Hdecl.
    cbn [Record.header] in Hn, Hdecl. congruence.
  - unfold Record.set_content_length in Hset.
    destruct (int_of new_len) as [n|] eqn:Hint; cbn [rbind] in Hset;
      [|discriminate].
    destruct (content_block_length_shape _ _ Hnew) as [-> | [n' ->]];
      [discriminate|].
    injection Hint as ->.
    destruct (Fields.setitem _ _ _) as [fields|] eqn:Hfields;
      cbn [rbind] in Hset; [|discriminate].
    injection Hset as <-.
    cbn [Record.file_offset Record.content_block file].
    repeat split; auto.
    intros m Hm. unfold Record.content_length in Hm.
    cbn [Record.header Header.fields] in Hm.
    rewrite (getitem_setitem_same _ _ _ _ Hfields) in Hm.
    cbn in Hm. congruence.
Qed.

(** X14: the declared Content-Length frames the record, whatever length
    is recomputed.  When [Record.load] returns, the header took at least
    four octets, the record remembers the offset where it started and the
    file is not changed.  For a declared length that is not negative the
    cursor stops after the header and within the declared length; it
    stops exactly at the end of the declared length when the file holds
    that many octets, or when the block is a binary block. *)
Theorem load_frames_by_declared_length
        (preserve_block : bool) (w w' : world) (record : Record.t) :
  Record.load preserve_block w = Ok (record, w') ->
  exists (header_length : nat) (parsed : Header.t) (declared : Z),
    4 <= header_length /\
    Header.parse (firstn header_length (remaining (file w))) = Ok parsed /\
    Record.content_length
      (Record.mk parsed None (Record.file_offset record)) = Ok declared /\
    Record.file_offset record = Some (Z.of_nat (pos (file w))) /\
    name (file w') = name (file w) /\
    content (file w') = content (file w) /\
    ((0 <= declared)%Z ->
     pos (file w) + header_length <= pos (file w') /\
     pos (file w') <= pos (file w) + header_length + Z.to_nat declared /\
     ((pos (file w) + header_length + Z.to_nat declared
       <= length (content (file w))
       \/ exists blk, Record.content_block record = Some (BinaryBlock_ blk))
      -> pos (file w') = pos (file w) + header_length + Z.to_nat declared)).
Proof.
  intros H. apply load_layout in H.
  destruct H as (hl & parsed & declared & content_type & block & w2
                 & Hhl & Hin & Hparse & Hdecl & Hblock & Hcb & Hoff & Hw
                 & _).
  exists hl, parsed, declared. rewrite Hw, Hcb.
  repeat (split; [assumption|]).
  destruct (load_block_parts _ _ _ _ _ _ Hblock)
    as [(blk & -> & Hload) | (blk & cls & -> & Hload)].
  - apply BinaryBlock_load_parts in Hload. destruct Hload as (_ & _ & ->).
    cbn [file name content pos]. repeat split; auto; lia.
  - apply BlockWithPayload_load_payload in Hload.
    destruct Hload as (k & n & _ & _ & -> & Hfit).
    cbn [file name content pos] in *. repeat split; auto.
    + lia.
    + destruct (Hfit H) as [Hle _]. lia.
    + destruct (Hfit H) as [_ Hfill].
      intros [Hall | [b0 Hb]]; [|discriminate].
      rewrite <- Nat.add_assoc. f_equal. apply Hfill.
      unfold remaining in *. cbn [pos content].
      rewrite length_skipn in *. lia.
Qed.

Lemma load_frames_by_declared_length_witness :
  exists record w',
    Record.load false padded_fields = Ok (record, w') /\
    pos (file w') = 94.
Proof.
  destruct (Record.load false padded_fields) as [[record w']|e] eqn:Hload.
  - exists record, w'. split; [reflexivity|].
    destruct (load_frames_by_declared_length false padded_fields w' record
                                             Hload)
      as (hl & parsed & declared & _ & _ & _ & _ & _ & _ & _).
    vm_compute in Hload. injection Hload as <- <-. reflexivity.
  - vm_compute in Hload. discriminate.
Defined.

(** ** Serializing the block of a loaded record *)

Lemma encode_join_each (chunks : list str) : forall octets,
  encode_join chunks = Ok octets ->
  exists encoded,
    encode_each chunks = (encoded, None) /\ concat encoded = octets.
Proof.
  induction chunks as [|s chunks IH]; intros octets H.
  - injection H as <-. now exists [].
  - cbn [encode_join] in H. cbn [encode_each].
    destruct (encode s) as [x|]; cbn [rbind] in H; [|discriminate].
    destruct (encode_join chunks) as [y|]; cbn [rbind] in H; [|discriminate].
    injection H as <-. destruct (IH y eq_refl) as (encoded & -> & <-).
    now exists (x :: encoded).
Qed.

Lemma fields_obj_bytes_iter_str (o : fields_obj) :
  fields_obj_bytes o = encode_join (fields_obj_iter_str o).
Proof. now destruct o. Qed.

(** The chunks of the block of a loaded record. *)
Lemma loaded_block_bytes
      (preserve_block : bool) (w w' : world) (record : Record.t)
      (n : Z) (f : file_obj) :
  Record.load preserve_block w = Ok (record, w') ->
  Record.content_length record = Ok n ->
  (0 <= n)%Z ->
  pos (file w') <= length (content (file w)) ->
  content f = content (file w) ->
  exists block chunks,
    Record.content_block record = Some block /\
    content_block_iter_bytes block f = Some (chunks, None) /\
    len_Z (concat chunks) = n.
Proof.
  intros H Hn Hpos Hend Hf. apply load_layout in H.
  destruct H as (hl & parsed & declared & content_type & block & w2
                 & Hhl & Hin & Hparse & Hdecl & Hblock & Hcb & Hoff & Hw
                 & Hlen).
  specialize (Hlen n Hn). rewrite Hw in Hend. exists block.
  destruct (load_block_parts _ _ _ _ _ _ Hblock)
    as [(blk & -> & Hload) | (blk & cls & -> & Hload)].
  - apply BinaryBlock_load_parts in Hload. destruct Hload as (-> & _ & ->).
    cbn [content_block_length BinaryFileRef.length pyval_of_option] in Hlen.
    injection Hlen as ->.
    cbn [file name content pos] in *.
    destruct (iter_bytes_range_at f (Some (name (file w)))
                                  (pos (file w) + hl) (Z.to_nat n))
      as (chunks & Hiter & Hcat); [right; lia|].
    rewrite Z2Nat.id in Hiter by assumption.
    exists chunks. split; [assumption|]. split; [exact Hiter|].
    unfold len_Z. rewrite Hcat, length_firstn, length_skipn, Hf. lia.
  - apply BlockWithPayload_load_payload in Hload.
    destruct Hload as (k & m & Hpay & Hcase & -> & _).
    cbn [content_block_length] in Hlen.
    unfold BlockWithPayload.length in Hlen.
    rewrite fields_obj_bytes_iter_str, Hpay in Hlen.
    destruct (encode_join (fields_obj_iter_str (BlockWithPayload.fields blk)))
      as [octets|] eqn:Henc; cbn [rbind] in Hlen; [|discriminate].
    cbn [BinaryFileRef.length] in Hlen. injection Hlen as <-.
    destruct (encode_join_each _ _ Henc) as (encoded & Heach & <-).
    cbn [file name content pos] in *.
    destruct (iter_bytes_range_at f (Some (name (file w)))
                                  (pos (file w) + hl + k) m)
      as (chunks & Hiter & Hcat); [destruct Hcase; [now left | right; lia]|].
    exists (encoded ++ NEWLINE_BYTES :: chunks). split; [assumption|].
    cbn [content_block_iter_bytes]. unfold BlockWithPayload.iter_bytes.
    rewrite Heach, Hpay, Hiter. split; [reflexivity|].
    unfold len_Z. rewrite concat_app. cbn [concat].
    rewrite !length_app, Hcat, length_firstn, length_skipn, Hf.
    simpl. lia.
Qed.

(** X15: after [Record.load] the Content-Length of the record is the
    number of octets its content block serializes to.  For a record whose
    Content-Length is not negative and whose block lies within the file
    (the cursor did not pass the end), iterating the bytes of the block,
    through any file object on the same contents, ends without an
    exception and yields exactly [content_length] octets; and
    [bytes(record)] is then the octets of the header, those of the block
    and the two line terminators of the record delimiter. *)
Theorem serialized_block_has_content_length
        (preserve_block : bool) (w w' : world) (record : Record.t)
        (n : Z) (f : file_obj) :
  Record.load preserve_block w = Ok (record, w') ->
  Record.content_length record = Ok n ->
  (0 <= n)%Z ->
  pos (file w') <= length (content (file w)) ->
  content f = content (file w) ->
  exists block chunks,
    Record.content_block record = Some block /\
    content_block_iter_bytes block f = Some (chunks, None) /\
    len_Z (concat chunks) = n /\
    (forall octets,
        Header.to_bytes (Record.header record) = Ok octets ->
        option_map join_chunks (Record.iter_bytes record f)
        = Some (Ok (octets ++ concat chunks ++ FIELD_DELIM_BYTES))).
Proof.
  intros H Hn Hpos Hend Hf.
  destruct (loaded_block_bytes preserve_block w w' record n f
                               H Hn Hpos Hend Hf)
    as (block & chunks & Hcb & Hiter & Hlen).
  exists block, chunks. repeat split; auto.
  intros octets Hoct. unfold Header.to_bytes in Hoct.
  destruct (encode_join_each _ _ Hoct) as (encoded & Heach & <-).
  unfold Record.iter_bytes. rewrite Heach, Hcb, Hiter.
  cbn [option_map join_chunks]. do 2 f_equal.
  rewrite !concat_app. reflexivity.
Qed.

Lemma serialized_block_has_content_length_witness :
  exists record w' block chunks,
    Record.load false padded_fields = Ok (record, w') /\
    Record.content_block record = Some block /\
    content_block_iter_bytes block (file padded_fields)
    = Some (chunks, None) /\
    len_Z (concat chunks) = 21%Z.
Proof.
  destruct (Record.load false padded_fields) as [[record w']|e] eqn:Hload.
  - assert (Hn : Record.content_length record = Ok 21%Z
                 /\ pos (file w') <= length (content (file padded_fields))).
    { pose proof Hload as H. vm_compute in H. injection H as <- <-.
      split; [reflexivity | vm_compute; lia]. }
    destruct Hn as [Hn Hend].
    destruct (serialized_block_has_content_length
                false padded_fields w' record 21 (file padded_fields)
                Hload Hn ltac:(lia) Hend eq_refl)
      as (block & chunks & H1 & H2 & H3 & _).
    exists record, w', block, chunks. auto.
  - vm_compute in Hload. discriminate.
Defined.

(** ** Reading record after record *)

(** X16: a record that was read has moved the cursor forward.  When
    [read_record] returns a record whose block, if binary, has a length
    that is not negative, the cursor has advanced by at least eight octets
    (a header delimiter and a record delimiter), lies within the file just
    after a record delimiter, and the flag says whether octets are left
    after it.  The file is not changed. *)
Theorem read_record_moves_forward
        (preserve_block : bool) (w w' : world) (record : Record.t)
        (more : bool) :
  WARC.read_record preserve_block w = Ok ((record, more), w') ->
  (forall blk L, Record.content_block record = Some (BinaryBlock_ blk) ->
                 BinaryFileRef.length blk = Some L -> (0 <= L)%Z) ->
  pos (file w) + 8 <= pos (file w') /\
  pos (file w') <= length (content (file w)) /\
  firstn 4 (skipn (pos (file w') - 4) (content (file w)))
  = FIELD_DELIM_BYTES /\
  (more = true <-> pos (file w') < length (content (file w))) /\
  content (file w') = content (file w).
Proof.
  intros H Hbin. unfold WARC.read_record in H.
  apply bind_Ok in H. destruct H as (record' & w1 & Hload & H).
  apply bind_Ok in H. destruct H as (data & w2 & Hread & H).
  assert (Hrd : read (len_Z FIELD_DELIM_BYTES) w1
                = Ok (firstn 4 (remaining (file w1)),
                      mkworld (mkfile (name (file w1)) (content (file w1))
                                      (pos (file w1)
                                       + length (firstn 4
                                                   (remaining (file w1)))))
                              (warnings w1))) by reflexivity.
  rewrite Hrd in Hread. clear Hrd.
  apply Ok_inj in Hread.
  assert (Hd : data = firstn 4 (remaining (file w1)) /\
               w2 = mkworld (mkfile (name (file w1)) (content (file w1))
                                    (pos (file w1)
                                     + length (firstn 4
                                                 (remaining (file w1)))))
                            (warnings w1)) by (split; congruence).
  clear Hread. destruct Hd as [-> ->].
  destruct (bytes_eqb (firstn 4 (remaining (file w1))) FIELD_DELIM_BYTES)
    eqn:Hdelim; cbn [negb] in H.
  2:{ apply bind_Ok in H. destruct H as (here & w3 & _ & H). discriminate. }
  apply bytes_eqb_eq in Hdelim.
  assert (Hlen4 : length (firstn 4 (remaining (file w1))) = 4)
    by now rewrite Hdelim.
  rewrite Hlen4 in H.
  set (w2 := mkworld (mkfile (name (file w1)) (content (file w1))
                             (pos (file w1) + 4)) (warnings w1)) in *.
  assert (Hpk : peek 1 w2 = Ok (firstn 1 (remaining (file w2)), w2))
    by reflexivity.
  unfold bind in H. rewrite Hpk in H. clear Hpk.
  assert (Hmore : more = negb (bytes_eqb (firstn 1 (remaining (file w2))) [])
                  /\ record' = record /\ w' = w2).
  { destruct (bytes_eqb (firstn 1 (remaining (file w2))) []);
      apply ret_Ok in H; destruct H as [H ->]; cbn [negb];
      repeat split; congruence. }
  destruct Hmore as (-> & -> & ->). clear H. subst w2.
  unfold remaining at 1. cbn [file pos content].
  apply load_layout in Hload.
  destruct Hload as (hl & parsed & declared & content_type & block & w2
                     & Hhl & Hin & Hparse & Hdecl & Hblock & Hcb & Hoff & Hw
                     & _).
  rename w2 into w0.
  assert (Hfile : content (file w1) = content (file w) /\
                  pos (file w) + hl <= pos (file w1)).
  { rewrite Hw.
    destruct (load_block_parts _ _ _ _ _ _ Hblock)
      as [(blk & -> & Hload) | (blk & cls & -> & Hload)].
    - apply BinaryBlock_load_parts in Hload. destruct Hload as (-> & _ & ->).
      specialize (Hbin _ declared Hcb eq_refl).
      cbn [file content pos]. split; [reflexivity | lia].
    - apply BlockWithPayload_load_payload in Hload.
      destruct Hload as (k & n & _ & _ & -> & _).
      cbn [file content pos]. split; [reflexivity | lia]. }
  destruct Hfile as [Hcontent Hafter].
  unfold remaining in Hdelim, Hlen4. rewrite Hcontent in *.
  rewrite length_firstn, length_skipn in Hlen4.
  cbn [file pos content].
  replace (pos (file w1) + 4 - 4) with (pos (file w1)) by lia.
  repeat split; auto; try lia.
  - intros Hm. apply negb_true_iff, bytes_eqb_neq in Hm.
    destruct (Nat.lt_ge_cases (pos (file w1) + 4) (length (content (file w))))
      as [Hlt|Hge]; [assumption|].
    rewrite skipn_all2 in Hm by assumption. now destruct Hm.
  - intros Hlt. apply negb_true_iff, bytes_eqb_neq.
    destruct (skipn (pos (file w1) + 4) (content (file w))) eqn:E;
      [|discriminate].
    apply (f_equal (@length _)) in E. rewrite length_skipn in E.
    simpl in E. lia.
Qed.

Lemma read_record_moves_forward_witness :
  exists record w',
    WARC.read_record false two_records = Ok ((record, true), w') /\
    pos (file two_records) + 8 <= pos (file w').
Proof.
  destruct (WARC.read_record false two_records) as [[[record more] w']|e]
    eqn:Hread.
  - pose proof (read_record_moves_forward false two_records w' record more
                                          Hread) as H.
    vm_compute in Hread. injection Hread as <- <- <-.
    eexists. eexists. split; [reflexivity|].
    destruct H as [Hforward _]; [|exact Hforward].
    intros blk L Hb HL. vm_compute in Hb. injection Hb as <-.
    vm_compute in HL. injection HL as <-. lia.
  - vm_compute in Hread. discriminate.
Defined.

(** X17: the loop of [read_file_object] does not end on a record that
    leaves the cursor where it found it.  If [read_record] returns, with
    more to read, in the state in which it was called, then from that
    state [read_file_object] is still reading after any number of rounds.
    An archive whose record declares a negative Content-Length that leads
    back onto the delimiter before the record is such a state. *)
Theorem read_file_object_keeps_rereading (w : world) (record : Record.t) :
  WARC.read_record false w = Ok ((record, true), w) ->
  forall (fuel : nat) (records : list Record.t),
    WARC.read_file_object fuel records w = Ok (None, w).
Proof.
  intros H. induction fuel as [|fuel IH]; intros records; [reflexivity|].
  cbn [WARC.read_file_object]. unfold bind at 1. rewrite H.
  cbn [fst snd negb]. apply IH.
Qed.

Lemma read_file_object_keeps_rereading_witness :
  (exists record,
      WARC.read_record false rewinding_archive
      = Ok ((record, true), rewinding_archive)) /\
  WARC.read_file_object 100 [] rewinding_archive
  = Ok (None, rewinding_archive).
Proof.
  destruct (WARC.read_record false rewinding_archive)
    as [[[record more] w']|e] eqn:Hread.
  - assert (Hsame : more = true /\ w' = rewinding_archive).
    { pose proof Hread as H. vm_compute in H. injection H as _ <- <-.
      split; reflexivity. }
    destruct Hsame as [-> ->].
    split; [now exists record|].
    exact (read_file_object_keeps_rereading rewinding_archive record Hread
                                            100 []).
  - vm_compute in Hread. discriminate.
Defined.
